(** * LOCLY order-confirmation saga: a shallow embedding

    The TypeScript services and Mongo adapters of the repository are
    embedded as functions over explicit stores.  An [async] method that
    may reject becomes a computation in the monad [Js W], which threads
    the store [W] and ends in [Returned v] or [Threw e]: the store that
    comes out of a throwing computation keeps every effect performed
    before the throw, as in JavaScript.

    Mongo collections are finite maps keyed by [_id]; [uuidToMuuid] only
    changes the representation of a well-formed UUID, so identifiers are
    kept as strings on both sides. *)

From stdpp Require Import gmap strings pretty list fin_maps.
From Stdlib Require Import ZArith.

Local Open Scope string_scope.
Local Open Scope list_scope.

(** * Part I: the embedding *)

(** ** Values thrown and returned *)

Abbreviation UUID := string.
Abbreviation Binary := string.
Abbreviation Country := string.

(** [common/utils]: [MUUID.from(id)] on a well-formed UUID. *)
Definition uuidToMuuid (id : UUID) : Binary := id.

(** The members of [Code] that the sources name. *)
Inductive Code := ENTITY_NOT_FOUND_ERROR | INTERNAL_ERROR.

Inductive HttpStatus := FORBIDDEN | NOT_FOUND.

(** The payload objects attached to exceptions. *)
#[warnings="-register-all"]
Inductive JsVal :=
| JsUndefined
| JsString (s : string)
| JsArray (elements : list JsVal)
| JsObject (fields : list (string * JsVal)).

(** The error kinds of the collaborators whose code is not in the
    repository's files; they are named as the specification names them. *)
Inductive ErrorKind := OrderNotFound | NoHostAvailable | DuplicateMatch.

Inductive Thrown :=
| Exception (code : Code) (message : string) (data : JsVal)
  (* new Exception(code, message, data) *)
| CustomException (message : string) (data : JsVal) (status : option HttpStatus)
  (* throwCustomException(message, data, status)() *)
| TypeError (message : string)
  (* raised by the JavaScript runtime *)
| MongoError (message : string)
  (* rejected by the Mongo driver *)
| StripeError (message : string)
  (* rejected by the payment gateway client *)
| Collaborator (kind : ErrorKind).

Inductive Outcome (A : Type) :=
| Returned (value : A)
| Threw (error : Thrown).
Arguments Returned {A} value.
Arguments Threw {A} error.

(** A transaction handle; the adapters only pass it on. *)
Inductive ClientSession := Session (number : nat).

(** ** The monad of store-passing computations that may throw *)

Definition Js (W A : Type) : Type := W → Outcome A * W.

#[global] Instance Js_ret W : MRet (Js W) := λ A a w, (Returned a, w).

#[global] Instance Js_bind W : MBind (Js W) := λ A B k m w,
  match m w with
  | (Returned a, w') => k a w'
  | (Threw e, w') => (Threw e, w')
  end.

Definition throw {W A} (e : Thrown) : Js W A := λ w, (Threw e, w).

(** [promise.catch(handler)] *)
Definition catch {W A} (m : Js W A) (handler : Thrown → Js W A) : Js W A := λ w,
  match m w with
  | (Returned a, w') => (Returned a, w')
  | (Threw e, w') => handler e w'
  end.

(** [`${error}`] *)
Definition describe (error : Thrown) : string :=
  match error with
  | Exception _ message _ => "Error: " +:+ message
  | CustomException message _ _ => "Error: " +:+ message
  | TypeError message => "TypeError: " +:+ message
  | MongoError message => "MongoError: " +:+ message
  | StripeError message => "Error: " +:+ message
  | Collaborator _ => "Error"
  end.

(** The settled outcome of a call that does not touch the store. *)
Definition settle {W A} (o : Outcome A) : Js W A := λ w, (o, w).

Definition gets {W A} (f : W → A) : Js W A := λ w, (Returned (f w), w).
Definition modify {W} (f : W → W) : Js W unit := λ w, (Returned tt, f w).

(** * MatchMongoRecorderAdapter *)

Module MatchMongoRecorderAdapter.

(** The [Match] of the [MatchRecorder] port, as [recordMatch] builds it. *)
Record Match := { orderId : UUID; hostId : UUID }.

(** The fields of a stored document that the adapter's queries name. *)
Record MatchMongoDocument := { _id : Binary; doc_hostId : Binary }.

(** [./MatchMongoMapper] is not among the repository's files: the two
    mappers are an interface here.  [mongoDocumentToMatch] is applied to
    what [findOne] resolved to, which is [null] ([None]) when no document
    matches. *)
Class MatchMongoMapper := {
  matchToMongoDocument : Match → MatchMongoDocument;
  mongoDocumentToMatch : option MatchMongoDocument → Outcome Match;
}.

(** A mapper that destructures its argument: on [null] the runtime
    raises a TypeError. *)
Definition destructuringMapper : MatchMongoMapper := {|
  matchToMongoDocument m := {| _id := uuidToMuuid (orderId m); doc_hostId := uuidToMuuid (hostId m) |};
  mongoDocumentToMatch d :=
    match d with
    | Some doc => Returned {| orderId := _id doc; hostId := doc_hostId doc |}
    | None => Threw (TypeError "Cannot destructure property '_id' of 'undefined' or 'null'")
    end;
|}.

(** The [matches] collection. *)
Abbreviation Collection := (gmap Binary MatchMongoDocument).

(** ** The driver calls the adapter makes *)

Definition insertOne (doc : MatchMongoDocument) (session : option ClientSession)
  : Js Collection unit := λ c,
  match c !! _id doc with
  | Some _ => (Threw (MongoError "E11000 duplicate key error"), c)
  | None => (Returned tt, <[_id doc := doc]> c)
  end.

(** [findOne({ _id }, { session })] and [findOne({ _id, hostId }, { session })]. *)
Definition findOne (id : Binary) (host : option Binary) (session : option ClientSession)
  : Js Collection (option MatchMongoDocument) := λ c,
  (Returned
     (match c !! id with
      | Some doc =>
          match host with
          | Some h => if decide (doc_hostId doc = h) then Some doc else None
          | None => Some doc
          end
      | None => None
      end), c).

Definition deleteOne (id : Binary) (session : option ClientSession)
  : Js Collection unit := λ c, (Returned tt, delete id c).

Section Adapter.
Context {mapper : MatchMongoMapper}.

Definition recordMatch (orderId hostId : UUID) (session : option ClientSession)
  : Js Collection UUID :=
  let matchId := orderId in
  _ ← insertOne (matchToMongoDocument {| orderId := orderId; hostId := hostId |}) session;
  mret matchId.

Definition retrieveAndDeleteMatch (matchId : UUID) (session : option ClientSession)
  : Js Collection Match :=
  let matchMongoBinaryId := uuidToMuuid matchId in
  matchDocument ← findOne matchMongoBinaryId None session;
  _ ← deleteOne matchMongoBinaryId session;
  settle (mongoDocumentToMatch matchDocument).

Definition findMatch (orderId hostId : UUID) (session : option ClientSession)
  : Js Collection Match :=
  let orderMongoBinaryId := uuidToMuuid orderId in
  let hostMongoBinaryId := uuidToMuuid hostId in
  matchDocument ← findOne orderMongoBinaryId (Some hostMongoBinaryId) session;
  match matchDocument with
  | None =>
      throw (Exception ENTITY_NOT_FOUND_ERROR
               ("Match (orderId: " +:+ orderId +:+ ", hostId: " +:+ hostId +:+ ") not found")
               (JsObject [("orderId", JsString orderId); ("hostId", JsString hostId)]))
  | Some _ => settle (mongoDocumentToMatch matchDocument)
  end.

End Adapter.

(** A collection holding the match of one order. *)
Definition sampleMatches : Collection :=
  {[ "order-1" := {| _id := "order-1"; doc_hostId := "host-1" |} ]}.

End MatchMongoRecorderAdapter.

(** * The entities of the order domain

    [entity/Order] and [entity/Item] are not among the repository's
    files; the records carry the fields that the specification's data
    model lists and that the services read or write.  Numbers and dates
    are only stored and passed on, never computed with: a number is an
    integer here and a [Date] is its epoch time. *)

Abbreviation Date := Z.
Abbreviation URL := string.

Module Cost.
Record t := { amount : Z; currency : string }.
End Cost.

Module Address.
Record t := { country : Country }.
End Address.

Module Item.
Record t := {
  id : UUID;
  title : string;
  storeName : string;
  weight : Z;
  receivedDate : option Date;
  photos : list string;
}.
End Item.

Inductive OrderStatus := Drafted | Confirmed | Finalized.

#[global] Instance OrderStatus_eq_dec : EqDecision OrderStatus.
Proof. solve_decision. Defined.

Module Order.
Record t := {
  id : UUID;
  customerId : UUID;
  originCountry : Country;
  destination : Address.t;
  items : list Item.t;
  status : OrderStatus;
  shipmentCost : Cost.t;
  finalShipmentCost : option Cost.t;
  totalWeight : option Z;
  hostId : option UUID;
  calculatorResultUrl : option URL;
}.
End Order.

(** JavaScript truthiness of the values the services test. *)
Definition truthyDate (d : option Date) : bool := bool_decide (is_Some d).
Definition truthyNumber (n : nat) : bool := bool_decide (n ≠ 0).
Definition truthyString (s : option string) : bool :=
  match s with
  | Some s => bool_decide (s ≠ "")
  | None => false
  end.

(** * SubmitShipmentInfo *)

Module SubmitShipmentInfo.

Record SubmitShipmentInfoPayload := {
  orderId : UUID;
  hostId : UUID;
  totalWeight : Z;
  shipmentCost : Cost.t;
  calculatorResultUrl : option URL;
}.

(** The filter and property objects handed to [IOrderRepository]; an
    absent key is [None]. *)
Record OrderFilter := {
  filter_orderId : UUID;
  filter_status : option OrderStatus;
  filter_hostId : option UUID;
}.

Record OrderProperties := {
  set_totalWeight : option Z;
  set_finalShipmentCost : option Cost.t;
  set_status : option OrderStatus;
  set_calculatorResultUrl : option URL;
}.

(** Each repository call is journalled with the transaction handle it
    was given ([None] when the argument is left out). *)
Inductive RepositoryCall :=
| FindOrderCall (filter : OrderFilter) (session : option ClientSession)
| SetPropertiesCall (filter : OrderFilter) (properties : OrderProperties)
    (session : option ClientSession).

Record Store := {
  orders : gmap UUID Order.t;
  journal : list RepositoryCall;
}.

Definition journalCall (call : RepositoryCall) : Js Store unit :=
  modify (λ w, {| orders := orders w; journal := journal w ++ [call] |}).

Definition selects (filter : OrderFilter) (order : Order.t) : bool :=
  from_option (λ s, bool_decide (Order.status order = s)) true (filter_status filter)
  && from_option (λ h, bool_decide (Order.hostId order = Some h)) true (filter_hostId filter).

Definition lookupOrder (filter : OrderFilter) (w : Store) : option Order.t :=
  match orders w !! filter_orderId filter with
  | Some order => if selects filter order then Some order else None
  | None => None
  end.

(** Modelled from the spec: [IOrderRepository.findOrder] is not among the
    repository's files.  The filtered load returns the order that
    satisfies every key of the filter and fails with [OrderNotFound] when
    the lookup misses. *)
Definition findOrder (filter : OrderFilter) (session : option ClientSession)
  : Js Store Order.t :=
  _ ← journalCall (FindOrderCall filter session);
  found ← gets (lookupOrder filter);
  match found with
  | Some order => mret order
  | None => throw (Collaborator OrderNotFound)
  end.

Definition assign (properties : OrderProperties) (order : Order.t) : Order.t := {|
  Order.id := Order.id order;
  Order.customerId := Order.customerId order;
  Order.originCountry := Order.originCountry order;
  Order.destination := Order.destination order;
  Order.items := Order.items order;
  Order.status := default (Order.status order) (set_status properties);
  Order.shipmentCost := Order.shipmentCost order;
  Order.finalShipmentCost :=
    from_option Some (Order.finalShipmentCost order) (set_finalShipmentCost properties);
  Order.totalWeight := from_option Some (Order.totalWeight order) (set_totalWeight properties);
  Order.hostId := Order.hostId order;
  Order.calculatorResultUrl :=
    from_option Some (Order.calculatorResultUrl order) (set_calculatorResultUrl properties);
|}.

(** Modelled from the spec: [IOrderRepository.setProperties] is not among
    the repository's files.  It is the single conditional update of the
    order the filter selects, setting the given properties and no other;
    it fails when no order is selected. *)
Definition setProperties (filter : OrderFilter) (properties : OrderProperties)
    (session : option ClientSession) : Js Store unit :=
  _ ← journalCall (SetPropertiesCall filter properties session);
  found ← gets (lookupOrder filter);
  match found with
  | Some order =>
      modify (λ w, {| orders := <[filter_orderId filter := assign properties order]> (orders w);
                      journal := journal w |})
  | None => throw (Collaborator OrderNotFound)
  end.

(** ** The use case *)

Definition getUnfinalizedItems (orderId hostId : UUID) : Js Store (list Item.t) :=
  order ← findOrder {| filter_orderId := orderId;
                       filter_status := Some Confirmed;
                       filter_hostId := Some hostId |} None;
  let notFinalizedItems :=
    List.filter
      (λ item, negb (truthyDate (Item.receivedDate item)
                     && truthyNumber (length (Item.photos item))))
      (Order.items order) in
  mret notFinalizedItems.

Definition finalizeOrder (request : SubmitShipmentInfoPayload)
    (mongoTransactionSession : ClientSession) : Js Store unit :=
  let finalShipmentCost := shipmentCost request in
  notFinalizedItems ← getUnfinalizedItems (orderId request) (hostId request);
  let notFinalizedItemIds := Item.id <$> notFinalizedItems in
  _ ← (if truthyNumber (length notFinalizedItems)
       then throw (CustomException
                     "Can't finalize order until all items have weights and photos"
                     (JsObject [("orderId", JsString (orderId request));
                                ("notFinalizedItemIds", JsArray (JsString <$> notFinalizedItemIds))])
                     (Some FORBIDDEN))
       else mret tt);
  setProperties
    {| filter_orderId := orderId request; filter_status := None; filter_hostId := None |}
    {| set_totalWeight := Some (totalWeight request);
       set_finalShipmentCost := Some finalShipmentCost;
       set_status := Some Finalized;
       set_calculatorResultUrl :=
         if truthyString (calculatorResultUrl request) then calculatorResultUrl request else None |}
    (Some mongoTransactionSession).

(** Modelled from the spec: the three-argument [withTransaction] of
    [common/application] is not among the repository's files.  It runs
    the callback under the given session, or under one it starts, and an
    aborted transaction discards the writes made under its session; the
    journal of calls is not storage and is kept. *)
Definition withTransaction {A} (fn : ClientSession → Js Store A)
    (mongoTransactionSession : option ClientSession) : Js Store A := λ w,
  match fn (default (Session 0) mongoTransactionSession) w with
  | (Returned a, w') => (Returned a, w')
  | (Threw e, w') => (Threw e, {| orders := orders w; journal := journal w' |})
  end.

Definition execute (finalizeOrderRequest : SubmitShipmentInfoPayload)
    (mongoTransactionSession : option ClientSession) : Js Store unit :=
  withTransaction
    (λ sessionWithTransaction, finalizeOrder finalizeOrderRequest sessionWithTransaction)
    mongoTransactionSession.

(** ** The completeness invariant of the data model *)

Definition complete (item : Item.t) : Prop :=
  is_Some (Item.receivedDate item) ∧ Item.photos item ≠ [].

Definition incomplete (item : Item.t) : Prop :=
  Item.receivedDate item = None ∨ Item.photos item = [].

#[global] Instance incomplete_dec item : Decision (incomplete item).
Proof. unfold incomplete. apply _. Defined.

(** The rejection that carries the ids of the offending items. *)
Definition IncompleteItems (orderId : UUID) (itemIds : list UUID) : Thrown :=
  CustomException
    "Can't finalize order until all items have weights and photos"
    (JsObject [("orderId", JsString orderId);
               ("notFinalizedItemIds", JsArray (JsString <$> itemIds))])
    (Some FORBIDDEN).

(** The order as the finalizing update leaves it. *)
Definition finalized (request : SubmitShipmentInfoPayload) (order : Order.t) : Order.t := {|
  Order.id := Order.id order;
  Order.customerId := Order.customerId order;
  Order.originCountry := Order.originCountry order;
  Order.destination := Order.destination order;
  Order.items := Order.items order;
  Order.status := Finalized;
  Order.shipmentCost := Order.shipmentCost order;
  Order.finalShipmentCost := Some (shipmentCost request);
  Order.totalWeight := Some (totalWeight request);
  Order.hostId := Order.hostId order;
  Order.calculatorResultUrl :=
    match calculatorResultUrl request with
    | Some url => if decide (url = "") then Order.calculatorResultUrl order else Some url
    | None => Order.calculatorResultUrl order
    end;
|}.

Definition loadFilter (request : SubmitShipmentInfoPayload) : OrderFilter :=
  {| filter_orderId := orderId request;
     filter_status := Some Confirmed;
     filter_hostId := Some (hostId request) |}.

Definition updateFilter (request : SubmitShipmentInfoPayload) : OrderFilter :=
  {| filter_orderId := orderId request; filter_status := None; filter_hostId := None |}.

Definition update (request : SubmitShipmentInfoPayload) : OrderProperties :=
  {| set_totalWeight := Some (totalWeight request);
     set_finalShipmentCost := Some (shipmentCost request);
     set_status := Some Finalized;
     set_calculatorResultUrl :=
       if truthyString (calculatorResultUrl request) then calculatorResultUrl request else None |}.

(** ** The stores a run ends in *)

Definition loaded (request : SubmitShipmentInfoPayload) (w : Store) : Store :=
  {| orders := orders w;
     journal := journal w ++ [FindOrderCall (loadFilter request) None] |}.

Definition updated (request : SubmitShipmentInfoPayload) (session : ClientSession)
    (order : Order.t) (w : Store) : Store :=
  {| orders := <[orderId request := finalized request order]> (orders w);
     journal := journal w ++ [FindOrderCall (loadFilter request) None;
                              SetPropertiesCall (updateFilter request) (update request)
                                (Some session)] |}.

(** ** A confirmed order with one item still to be received *)

Definition laptop : Item.t :=
  {| Item.id := "item-1"; Item.title := "Laptop"; Item.storeName := "Amazon";
     Item.weight := 10; Item.receivedDate := Some 1600000000000%Z;
     Item.photos := ["photo-1"] |}.

Definition phone : Item.t :=
  {| Item.id := "item-2"; Item.title := "Phone"; Item.storeName := "Amazon";
     Item.weight := 1; Item.receivedDate := None; Item.photos := ["photo-2"] |}.

Definition confirmedOrder (items : list Item.t) : Order.t :=
  {| Order.id := "order-1"; Order.customerId := "customer-1";
     Order.originCountry := "US"; Order.destination := {| Address.country := "DE" |};
     Order.items := items; Order.status := Confirmed;
     Order.shipmentCost := {| Cost.amount := 400; Cost.currency := "usd" |};
     Order.finalShipmentCost := None; Order.totalWeight := None;
     Order.hostId := Some "host-1"; Order.calculatorResultUrl := None |}.

Definition storeOf (order : Order.t) : Store :=
  {| orders := {[ Order.id order := order ]}; journal := [] |}.

Definition sampleRequest : SubmitShipmentInfoPayload :=
  {| orderId := "order-1"; hostId := "host-1"; totalWeight := 11;
     shipmentCost := {| Cost.amount := 2500; Cost.currency := "usd" |};
     calculatorResultUrl := Some "https://calculator.example/result" |}.

End SubmitShipmentInfo.

(** * CustomerMongoRepositoryAdapter *)

Module CustomerMongoRepositoryAdapter.

(** The two fields of a [DraftedOrder] that the adapter destructures. *)
Record DraftedOrder := { id : UUID; customerId : UUID }.

Record CustomerMongoDocument := {
  _id : Binary;
  orderIds : list Binary;
  addresses : list Address.t;
}.

(** The [customers] collection. *)
Abbreviation Collection := (gmap Binary CustomerMongoDocument).

(** The update document [{ $push: { orderIds: entry } }]. *)
Definition push (entry : Binary) (doc : CustomerMongoDocument) : CustomerMongoDocument :=
  {| _id := _id doc; orderIds := orderIds doc ++ [entry]; addresses := addresses doc |}.

(** [updateOne({ _id }, update, options)]: the driver updates the
    document with that [_id] when there is one, and resolves (with
    [matchedCount] 0) when there is none. *)
Definition updateOne (id : Binary) (update : CustomerMongoDocument → CustomerMongoDocument)
    (options : option ClientSession) : Js Collection unit :=
  modify (alter update id).

Definition findOne (id : Binary) (options : option ClientSession)
  : Js Collection (option CustomerMongoDocument) :=
  gets (λ c : Collection, c !! id).

Definition addOrderToCustomer (order : DraftedOrder) (transaction : option ClientSession)
  : Js Collection unit :=
  let orderId := id order in
  let customerId := customerId order in
  catch
    (updateOne (uuidToMuuid customerId) (push (uuidToMuuid orderId)) transaction)
    (λ error,
       throw (Exception INTERNAL_ERROR
                ("Customer couldn't accept order and add order to consumer (orderId: "
                 +:+ orderId +:+ ", customerId: " +:+ customerId +:+ "): " +:+ describe error)
                JsUndefined)).

(** [findCustomer] returns the stored document; the mapper to the
    [Customer] entity is not among the repository's files. *)
Definition findCustomer (customerId : UUID) (transaction : option ClientSession)
  : Js Collection CustomerMongoDocument :=
  customerDocument ← findOne (uuidToMuuid customerId) transaction;
  match customerDocument with
  | None =>
      throw (Exception ENTITY_NOT_FOUND_ERROR
               ("Customer (id: " +:+ customerId +:+ ") not found")
               (JsObject [("customerId", JsString customerId)]))
  | Some doc => mret doc
  end.

Definition sampleCustomers : Collection :=
  {[ "customer-1" := {| _id := "customer-1"; orderIds := []; addresses := [] |} ]}.

End CustomerMongoRepositoryAdapter.

(** * StripeCheckoutWebhook *)

Module StripeCheckoutWebhook.

(** Stripe metadata: string keys and string values. *)
Abbreviation StripeCheckoutWebhookPayload := (gmap string string).

Record StripeCheckoutSession := {
  id : string;
  client_reference_id : option string;
  metadata : StripeCheckoutWebhookPayload;
}.

Record StripeEventData := { object : StripeCheckoutSession }.

Record StripeEvent := { type : string; data : StripeEventData }.

(** Modelled from the spec: the [FeeType] enum of [IStripeCheckoutWebhook]
    is not among the repository's files; the wire values are the ones the
    correlation payload format names, "service" and "shipment". *)
Module FeeType.
Definition Service : string := "service".
Definition Shipment : string := "shipment".
End FeeType.

Definition payloadToJs (payload : StripeCheckoutWebhookPayload) : JsVal :=
  JsObject ((λ entry, (entry.1, JsString entry.2)) <$> map_to_list payload).

Definition UnexpectedWebhookType (payload : StripeCheckoutWebhookPayload) : Thrown :=
  CustomException "Unexpected Stripe 'checkout.session.completed' webhook type"
    (JsObject [("webhookPayload", payloadToJs payload)]) None.

(** The two injected handlers, over whatever store [W] they work on and
    with whatever [StripeCheckoutResult] [R] they resolve to. *)
Class Handlers (W R : Type) := {
  confirmOrderWebhookGateway : StripeCheckoutWebhookPayload → Js W R;
  payShipmentWebhookGateway : StripeCheckoutWebhookPayload → Js W R;
}.

Definition execute {W R} {handlers : Handlers W R} (event : StripeEvent) : Js W R :=
  let webhookPayload := metadata (object (data event)) in
  match webhookPayload !! "feeType" with
  | Some feeType =>
      if decide (feeType = FeeType.Service) then confirmOrderWebhookGateway webhookPayload
      else if decide (feeType = FeeType.Shipment) then payShipmentWebhookGateway webhookPayload
      else throw (UnexpectedWebhookType webhookPayload)
  | None => throw (UnexpectedWebhookType webhookPayload)
  end.

(** Handlers that do nothing but journal their invocation. *)
Inductive Invocation :=
| ConfirmOrderHandler (payload : StripeCheckoutWebhookPayload)
| PayShipmentHandler (payload : StripeCheckoutWebhookPayload).

Definition journalling : Handlers (list Invocation) unit := {|
  confirmOrderWebhookGateway payload := modify (λ log, log ++ [ConfirmOrderHandler payload]);
  payShipmentWebhookGateway payload := modify (λ log, log ++ [PayShipmentHandler payload]);
|}.

Definition completed (payload : StripeCheckoutWebhookPayload) : StripeEvent :=
  {| type := "checkout.session.completed";
     data := {| object := {| id := "cs_test_1"; client_reference_id := None;
                             metadata := payload |} |} |}.

End StripeCheckoutWebhook.

(** * ConfirmOrderService *)

Module ConfirmOrderService.

(** [common/domain/EntityId] wraps a UUID string, read with [.value]. *)
Abbreviation EntityId := UUID.
Definition value (id : EntityId) : UUID := id.

(** Modelled from the spec: [domain/entity/Host] is not among the
    repository's files.  The saga needs a host's id, the origin country
    it serves and its availability flag. *)
Module Host.
Record t := { id : EntityId; country : Country; available : bool }.
End Host.

(** The record handed to [MatchCache.recordMatch]. *)
Module Match.
Record t := { id : EntityId; orderId : EntityId; hostId : EntityId }.
End Match.

(** The parameters of [stripe.checkout.sessions.create]; an optional key
    that the call leaves out is [None]. *)
Module Stripe.
Record ProductData := { name : string }.
Record PriceData := { currency : string; unit_amount : Z; product_data : ProductData }.
Record LineItem := { price_data : PriceData; quantity : Z }.
Record SessionCreateParams := {
  payment_method_types : list string;
  line_items : list LineItem;
  client_reference_id : option string;
  metadata : option (gmap string string);
  mode : string;
  success_url : URL;
  cancel_url : URL;
}.
End Stripe.

Record ConfirmOrderRequest := { orderId : EntityId }.
Record ConfirmOrderResult := { checkoutId : string }.

(** Everything the use case can read or change: the order store, the
    hosts the matcher sees, the match ledger, the events emitted so far,
    the checkout sessions requested from the gateway so far, and how many
    ids [new EntityId()] has drawn. *)
Record World := {
  orders : gmap UUID Order.t;
  hosts : list Host.t;
  matches : gmap UUID Match.t;
  emitted : list string;
  checkouts : list Stripe.SessionCreateParams;
  drawn : nat;
}.

Definition withMatches (f : gmap UUID Match.t → gmap UUID Match.t) (w : World) : World :=
  {| orders := orders w; hosts := hosts w; matches := f (matches w);
     emitted := emitted w; checkouts := checkouts w; drawn := drawn w |}.

Definition withEmitted (event : string) (w : World) : World :=
  {| orders := orders w; hosts := hosts w; matches := matches w;
     emitted := emitted w ++ [event]; checkouts := checkouts w; drawn := drawn w |}.

Definition withCheckout (params : Stripe.SessionCreateParams) (w : World) : World :=
  {| orders := orders w; hosts := hosts w; matches := matches w;
     emitted := emitted w; checkouts := checkouts w ++ [params]; drawn := drawn w |}.

Definition withDrawn (w : World) : World :=
  {| orders := orders w; hosts := hosts w; matches := matches w;
     emitted := emitted w; checkouts := checkouts w; drawn := S (drawn w) |}.

(** [this.eventEmitter.emit(event)] *)
Definition emit (event : string) : Js World unit := modify (withEmitted event).

(** The exception of [serviceAvailabileOrThrow]. *)
Definition ServiceUnavailable (originCountry destinationCountry : Country) : Thrown :=
  Exception INTERNAL_ERROR
    ("Service not available in origin " +:+ originCountry
     +:+ " or destination " +:+ destinationCountry)
    JsUndefined.

(** What the use case is constructed with, as far as the model needs
    it: the id generator behind [new EntityId()] ([uuid n] is the n-th id
    it draws), the coverage lists of the host matcher, and the payment
    gateway, which given the requests made so far and a new one rejects
    with a message or resolves to a checkout session. *)
Class Dependencies := {
  uuid : nat → UUID;
  originCountriesAvailable : list Country;
  destinationCountriesAvailable : list Country;
  sessionsCreate :
    list Stripe.SessionCreateParams → Stripe.SessionCreateParams →
    string + StripeCheckoutWebhook.StripeCheckoutSession;
}.

Section ConfirmOrder.
Context {deps : Dependencies}.

Definition newEntityId : Js World EntityId :=
  n ← gets drawn;
  _ ← modify withDrawn;
  mret (uuid n).

(** Modelled from the spec: [OrderRepository.findOrder] is not among the
    repository's files.  It loads the order by id and fails with
    [OrderNotFound] if it is missing. *)
Definition findOrder (orderId : EntityId) (session : option ClientSession)
  : Js World Order.t :=
  found ← gets (λ w, orders w !! value orderId);
  match found with
  | Some order => mret order
  | None => throw (Collaborator OrderNotFound)
  end.

(** Modelled from the spec: [HostMatcher] is not among the repository's
    files.  [checkServiceAvailability] is a pure lookup in the configured
    coverage lists. *)
Definition checkServiceAvailability (originCountry destinationCountry : Country)
  : Js World bool :=
  mret (bool_decide (originCountry ∈ originCountriesAvailable)
        && bool_decide (destinationCountry ∈ destinationCountriesAvailable)).

(** Modelled from the spec: [matchHost] selects one available host of the
    origin country, here the first one, and fails with [NoHostAvailable]
    if there is none; it changes nothing. *)
Definition matchHost (originCountry : Country) (session : option ClientSession)
  : Js World Host.t :=
  found ← gets (λ w, List.find
                       (λ host, Host.available host
                                && bool_decide (Host.country host = originCountry))
                       (hosts w));
  match found with
  | Some host => mret host
  | None => throw (Collaborator NoHostAvailable)
  end.

(** Modelled from the spec: [MatchCache.recordMatch] is not among the
    repository's files.  It inserts a new record under the match id and
    fails with [DuplicateMatch] if the id already exists. *)
Definition recordMatch (record : Match.t) (session : option ClientSession)
  : Js World unit :=
  existing ← gets (λ w, matches w !! value (Match.id record));
  match existing with
  | Some _ => throw (Collaborator DuplicateMatch)
  | None => modify (withMatches <[value (Match.id record) := record]>)
  end.

(** [this.stripe.checkout.sessions.create(params)] *)
Definition stripeCheckoutSessionsCreate (params : Stripe.SessionCreateParams)
  : Js World StripeCheckoutWebhook.StripeCheckoutSession :=
  history ← gets checkouts;
  _ ← modify (withCheckout params);
  match sessionsCreate history params with
  | inl message => throw (StripeError message)
  | inr checkoutSession => mret checkoutSession
  end.

(** ** The use case *)

Definition serviceAvailabileOrThrow (order : Order.t) : Js World unit :=
  let originCountry := Order.originCountry order in
  let destinationCountry := Address.country (Order.destination order) in
  isServiceAvailable ← checkServiceAvailability originCountry destinationCountry;
  if negb isServiceAvailable
  then throw (ServiceUnavailable originCountry destinationCountry)
  else mret tt.

Definition matchOrderToHost (order : Order.t) (session : ClientSession)
  : Js World EntityId :=
  matchedHost ← matchHost (Order.originCountry order) (Some session);
  matchId ← newEntityId;
  _ ← recordMatch {| Match.id := matchId;
                     Match.orderId := Order.id order;
                     Match.hostId := Host.id matchedHost |} (Some session);
  mret matchId.

(** The literal passed to [stripe.checkout.sessions.create]. *)
Definition checkoutParams (matchId : EntityId) : Stripe.SessionCreateParams :=
  {| Stripe.payment_method_types := ["card"];
     Stripe.line_items :=
       [{| Stripe.price_data :=
             {| Stripe.currency := "usd";
                Stripe.unit_amount := 10000;
                Stripe.product_data := {| Stripe.name := "Locly and Host Service Fee" |} |};
           Stripe.quantity := 1 |}];
     Stripe.client_reference_id := Some (value matchId);
     Stripe.metadata := None;
     Stripe.mode := "payment";
     Stripe.success_url := "https://news.ycombinator.com";
     Stripe.cancel_url := "https://reddit.com" |}.

Definition matchOrderAndCheckout (orderId : EntityId) (session : ClientSession)
  : Js World StripeCheckoutWebhook.StripeCheckoutSession :=
  order ← findOrder orderId None;
  _ ← catch (serviceAvailabileOrThrow order)
        (λ error, _ ← emit "order.rejected.service_availability"; throw error);
  matchId ← catch (matchOrderToHost order session)
              (λ error, _ ← emit "order.rejected.host_availability"; throw error);
  checkoutSession ← stripeCheckoutSessionsCreate (checkoutParams matchId);
  _ ← emit "order.awaiting_payment";
  mret checkoutSession.

(** [session.withTransaction(callback, options)] followed by
    [session.endSession()]: when the callback throws, the transaction is
    aborted and the write made under the session, the recorded match, is
    discarded; events and gateway requests are not storage and stay. *)
Definition withTransaction {A} (callback : ClientSession → Js World A) : Js World A := λ w,
  match callback (Session 0) w with
  | (Returned a, w') => (Returned a, w')
  | (Threw e, w') => (Threw e, withMatches (λ _, matches w) w')
  end.

Definition execute (request : ConfirmOrderRequest) : Js World ConfirmOrderResult :=
  checkoutSession ← withTransaction (λ session, matchOrderAndCheckout (orderId request) session);
  mret {| checkoutId := StripeCheckoutWebhook.id checkoutSession |}.

(** ** What each step computes *)

Definition availableIn (originCountry : Country) (w : World) : option Host.t :=
  List.find (λ host, Host.available host && bool_decide (Host.country host = originCountry))
    (hosts w).

Definition covered (order : Order.t) : bool :=
  bool_decide (Order.originCountry order ∈ originCountriesAvailable)
  && bool_decide (Address.country (Order.destination order) ∈ destinationCountriesAvailable).

Definition matchOf (order : Order.t) (host : Host.t) (w : World) : Match.t :=
  {| Match.id := uuid (drawn w); Match.orderId := Order.id order;
     Match.hostId := Host.id host |}.

(** An id that something of [w] already carries: a stored order, a
    host, or a recorded match. *)
Definition inUse (w : World) (id : UUID) : Prop :=
  (∃ key order, orders w !! key = Some order ∧ Order.id order = id)
  ∨ (∃ host, host ∈ hosts w ∧ Host.id host = id)
  ∨ is_Some (matches w !! id).

(** Modelled from the spec: [EntityId] is not among the repository's
    files.  Its ids are "generated fresh": the generator never draws an
    id twice, and from [w] on it draws no id that is in use in [w]. *)
Definition freshGenerator (w : World) : Prop :=
  (∀ n m, uuid n = uuid m → n = m)
  ∧ ∀ n, (drawn w ≤ n)%nat → ¬ inUse w (uuid n).

End ConfirmOrder.

(** ** The scenarios of the specification, run *)

(** A gateway that accepts every request and echoes what it was given. *)
Definition echoingGateway (history : list Stripe.SessionCreateParams)
    (params : Stripe.SessionCreateParams)
  : string + StripeCheckoutWebhook.StripeCheckoutSession :=
  inr {| StripeCheckoutWebhook.id := "cs_test_" +:+ pretty (length history);
         StripeCheckoutWebhook.client_reference_id := Stripe.client_reference_id params;
         StripeCheckoutWebhook.metadata := default ∅ (Stripe.metadata params) |}.

Definition sampleDependencies : Dependencies := {|
  uuid n := "match-" +:+ pretty n;
  originCountriesAvailable := ["US"; "ZZ"];
  destinationCountriesAvailable := ["DE"];
  sessionsCreate := echoingGateway;
|}.

Definition draftedOrder (originCountry : Country) : Order.t :=
  {| Order.id := "order-1"; Order.customerId := "customer-1";
     Order.originCountry := originCountry;
     Order.destination := {| Address.country := "DE" |};
     Order.items := []; Order.status := Drafted;
     Order.shipmentCost := {| Cost.amount := 400; Cost.currency := "usd" |};
     Order.finalShipmentCost := None; Order.totalWeight := None;
     Order.hostId := None; Order.calculatorResultUrl := None |}.

Definition worldOf (order : Order.t) : World :=
  {| orders := {[ Order.id order := order ]};
     hosts := [{| Host.id := "host-1"; Host.country := "US"; Host.available := true |}];
     matches := ∅; emitted := []; checkouts := []; drawn := 0 |}.

Definition firstMatch : Match.t :=
  {| Match.id := "match-0"; Match.orderId := "order-1"; Match.hostId := "host-1" |}.

Definition secondMatch : Match.t :=
  {| Match.id := "match-1"; Match.orderId := "order-1"; Match.hostId := "host-1" |}.

Definition afterFirstMatch : World :=
  withMatches <["match-0" := firstMatch]> (withDrawn (worldOf (draftedOrder "US"))).

Definition afterSecondMatch : World :=
  withMatches <["match-1" := secondMatch]> (withDrawn afterFirstMatch).

Definition rejectedForHost : World :=
  withEmitted "order.rejected.host_availability" (worldOf (draftedOrder "ZZ")).

Definition rejectedForService : World :=
  withEmitted "order.rejected.service_availability" (worldOf (draftedOrder "XX")).

Definition afterConfirm : World :=
  withEmitted "order.awaiting_payment"
    (withCheckout (checkoutParams "match-0") afterFirstMatch).

End ConfirmOrderService.

(** * common/utils *)

Module Utils.

(** The JavaScript values [flattenObject] tells apart: [undefined] and
    [null], primitives, the three classes it keeps whole ([Date],
    [RegExp], [Binary]), arrays and plain objects.  The fields of an
    object are listed in the order [Object.keys] enumerates them, each
    key once. *)
#[warnings="-register-all"]
Inductive Value :=
| Undefined
| Null
| BooleanValue (b : bool)
| NumberValue (n : Z)
| StringValue (s : string)
| DateValue (time : Z)
| RegExpValue (source : string)
| BinaryValue (bytes : string)
| ArrayValue (elements : list Value)
| ObjectValue (fields : list (string * Value)).

(** The default [valueFilter]: [v === undefined || v === null]. *)
Definition nullish (v : Value) : bool :=
  match v with
  | Undefined | Null => true
  | _ => false
  end.

(** [typeof value === 'object'], not [null], not a [Date], [RegExp] or
    [Binary], and not an empty array. *)
Definition isObject (value : Value) : bool :=
  match value with
  | ObjectValue _ => true
  | ArrayValue (_ :: _) => true
  | _ => false
  end.

(** [[path, key].filter(Boolean).join(separator)]: an undefined or
    empty [path] and an empty [key] are dropped before joining. *)
Definition joinPath (separator : string) (path : option string) (key : string) : string :=
  match path with
  | Some p =>
      if decide (p = "") then key
      else if decide (key = "") then p
      else p +:+ separator +:+ key
  | None => key
  end.

(** [Object.keys(object)] paired with [object[key]]; the keys of an
    array are its indices. *)
Definition entries (object : Value) : list (string * Value) :=
  match object with
  | ObjectValue fields => fields
  | ArrayValue elements => imap (λ index value, (pretty index, value)) elements
  | _ => []
  end.

Section flattenObject.
Variable keyFilter : option (string → bool).
Variable valueFilter : option (Value → bool).
Variable separator : string.

(** The body of the reducer; [nested] is the flattened [value], used
    when [value] is an object.  The flat object is a finite map:
    [{ ...acc, ...nested }] is the union in which [nested] wins. *)
Definition reducer (path : option string) (flatObjectAcc : gmap string Value)
    (key : string) (value : Value) (nested : gmap string Value) : gmap string Value :=
  if from_option (λ f, f key) false keyFilter then flatObjectAcc
  else if from_option (λ f, f value) false valueFilter then flatObjectAcc
  else
    let newPath := joinPath separator path key in
    if isObject value then nested ∪ flatObjectAcc
    else <[newPath := value]> flatObjectAcc.

Fixpoint flattenObject (object : Value) (path : option string) {struct object}
  : gmap string Value :=
  match object with
  | ObjectValue fields =>
      (fix reduce (fields : list (string * Value)) (flatObjectAcc : gmap string Value) :=
         match fields with
         | [] => flatObjectAcc
         | (key, value) :: rest =>
             reduce rest
               (reducer path flatObjectAcc key value
                  (flattenObject value (Some (joinPath separator path key))))
         end) fields ∅
  | ArrayValue elements =>
      (fix reduce (index : nat) (elements : list Value) (flatObjectAcc : gmap string Value) :=
         match elements with
         | [] => flatObjectAcc
         | value :: rest =>
             reduce (S index) rest
               (reducer path flatObjectAcc (pretty index) value
                  (flattenObject value (Some (joinPath separator path (pretty index)))))
         end) 0 elements ∅
  | _ => ∅
  end.

(** One round of the [reduce]. *)
Definition step (path : option string) (acc : gmap string Value) (entry : string * Value)
  : gmap string Value :=
  reducer path acc entry.1 entry.2
    (flattenObject entry.2 (Some (joinPath separator path entry.1))).

(** A value that is no object and that the value filter lets through. *)
Definition kept (value : Value) : Prop :=
  isObject value = false ∧ from_option (λ f, f value) false valueFilter = false.

(** An entry that neither filter drops. *)
Definition passes (entry : string * Value) : Prop :=
  from_option (λ f, f entry.1) false keyFilter = false
  ∧ from_option (λ f, f entry.2) false valueFilter = false.

#[global] Instance passes_dec entry : Decision (passes entry).
Proof. unfold passes. apply _. Defined.

End flattenObject.

Definition prefixed (path key : string) : Prop := ∃ rest, key = path +:+ rest.

(** [{ a: { b: 1, c: null, d: ['x', []] }, e: {}, f: new Date(0) }] *)
Definition sampleObject : Value :=
  ObjectValue
    [("a", ObjectValue [("b", NumberValue 1); ("c", Null);
                        ("d", ArrayValue [StringValue "x"; ArrayValue []])]);
     ("e", ObjectValue []);
     ("f", DateValue 0)].

Definition sampleFlat : list (string * Value) :=
  [("x", NumberValue 1); ("y", Null); ("z", ArrayValue []); ("", BinaryValue "00")].

(** ** enumToArray *)

(** A JavaScript number: [NaN], an infinity, or a finite double.  Every
    finite double is an integer multiple of the smallest subnormal,
    2^-1074: [Finite units] is the number [units * 2^-1074]. *)
Inductive Number :=
| NaN
| PositiveInfinity
| NegativeInfinity
| Finite (units : Z).

(** 2^1074, the number of units in 1. *)
Definition unitsPerOne : Z := (2 ^ 1074)%Z.

(** The integer [z] as a number. *)
Definition ofInteger (z : Z) : Number := Finite (z * unitsPerOne)%Z.

(** What [Math.floor] returns: [NaN], an infinity, or an integer ([-0]
    is the integer 0). *)
Inductive Floor :=
| FloorNaN
| FloorInfinity (negative : bool)
| FloorInteger (z : Z).

(** What [enumToArray] reads of its argument, which is typed [any]: the
    number that [inputEnum.length / 2] divides, [NaN] when the value has
    no [length] property, and [Object.values(inputEnum)]. *)
Record EnumLike (A : Type) := {
  lengthProperty : Number;
  objectValues : list A;
}.
Arguments lengthProperty {A} _.
Arguments objectValues {A} _.

(** [Math.floor(length / 2)].  Halving a double is exact unless its
    number of units is odd, when the half is rounded to the even
    neighbour; the floor of the rounded half is the floor of the exact
    one but for [-2^-1074], whose half rounds to [-0]. *)
Definition floorHalf (length : Number) : Floor :=
  match length with
  | NaN => FloorNaN
  | PositiveInfinity => FloorInfinity false
  | NegativeInfinity => FloorInfinity true
  | Finite units =>
      if decide (units = -1)%Z then FloorInteger 0
      else FloorInteger (units / (2 * unitsPerOne))%Z
  end.

(** [array.slice(0, end)]: a [NaN] end counts as 0, a negative end
    counts from the end of the array, and the result stays within the
    array. *)
Definition sliceFromStart {A} (finish : Floor) (array : list A) : list A :=
  match finish with
  | FloorNaN => []
  | FloorInfinity true => []
  | FloorInfinity false => array
  | FloorInteger z =>
      if decide (z < 0)%Z then take (Z.to_nat (Z.of_nat (length array) + z)) array
      else take (Z.to_nat z) array
  end.

Definition enumToArray {A} (inputEnum : EnumLike A) : list A :=
  let middle := floorHalf (lengthProperty inputEnum) in
  sliceFromStart middle (objectValues inputEnum).

(** ** withTransaction *)

(** The process [withTransaction] runs in: the database the callback
    works on, the lines written with [console.log] and the sessions
    ended so far. *)
Record Process (D : Type) := {
  database : D;
  console : list string;
  ended : list ClientSession;
}.
Arguments database {D} _.
Arguments console {D} _.
Arguments ended {D} _.

(** The driver's [session.withTransaction(callback)]: whatever it makes
    of a callback on the database. *)
Class Driver (D : Type) := sessionWithTransaction : ∀ T, Js D T → Js D T.

Definition onDatabase {D T} (m : Js D T) : Js (Process D) T := λ w,
  match m (database w) with
  | (outcome, d) => (outcome, {| database := d; console := console w; ended := ended w |})
  end.

Definition consoleLog {D} (line : string) : Js (Process D) unit :=
  modify (λ w, {| database := database w; console := console w ++ [line]; ended := ended w |}).

Definition endSession {D} (transaction : ClientSession) : Js (Process D) unit :=
  modify (λ w, {| database := database w; console := console w;
                  ended := ended w ++ [transaction] |}).

(** [try { body } finally { cleanup }] *)
Definition finally {W A} (body : Js W A) (cleanup : Js W unit) : Js W A := λ w,
  match body w with
  | (outcome, w') =>
      match cleanup w' with
      | (Returned _, w'') => (outcome, w'')
      | (Threw error, w'') => (Threw error, w'')
      end
  end.

Definition withTransaction {D T} `{Driver D} (fn : Js D T) (transaction : ClientSession)
  : Js (Process D) T :=
  finally
    (catch
       (result ← onDatabase (sessionWithTransaction T fn);
        mret result)
       (λ error, _ ← consoleLog "Transaction aborted."; throw error))
    (endSession transaction).

(** A driver that commits what a returning callback wrote and discards
    what a throwing one wrote. *)
Definition committing (D : Type) : Driver D := λ T callback d,
  match callback d with
  | (Returned a, d') => (Returned a, d')
  | (Threw error, _) => (Threw error, d)
  end.

End Utils.

(** * ConfirmOrderService, continued *)

Module ConfirmOrderReplay.
Import ConfirmOrderService.

Definition withOrders (f : gmap UUID Order.t → gmap UUID Order.t) (w : World) : World :=
  {| orders := f (orders w); hosts := hosts w; matches := matches w;
     emitted := emitted w; checkouts := checkouts w; drawn := drawn w |}.

(** The order of the scenarios after its confirmation: Confirmed and
    bound to a host. *)
Definition confirmedAlready : Order.t :=
  {| Order.id := "order-1"; Order.customerId := "customer-1";
     Order.originCountry := "US";
     Order.destination := {| Address.country := "DE" |};
     Order.items := []; Order.status := Confirmed;
     Order.shipmentCost := {| Cost.amount := 400; Cost.currency := "usd" |};
     Order.finalShipmentCost := None; Order.totalWeight := None;
     Order.hostId := Some "host-1"; Order.calculatorResultUrl := None |}.

(** The dependencies of the scenarios with a gateway that declines
    every request. *)
Definition decliningDependencies : Dependencies := {|
  uuid := uuid (Dependencies := sampleDependencies);
  originCountriesAvailable := originCountriesAvailable (Dependencies := sampleDependencies);
  destinationCountriesAvailable :=
    destinationCountriesAvailable (Dependencies := sampleDependencies);
  sessionsCreate _ _ := inl "card_declined";
|}.

End ConfirmOrderReplay.

(** * CreateCustomer *)

Module CreateCustomer.

Module Customer.
Record t := {
  id : UUID;
  email : string;
  orderIds : list UUID;
  addresses : list Address.t;
}.
End Customer.

Record CreateCustomerPayload := { email : string }.

Record CustomerMongoDocument := {
  _id : Binary;
  doc_email : string;
  doc_orderIds : list Binary;
  doc_addresses : list Address.t;
}.

(** [customerToMongoDocument] of [./CustomerMongoMapper] is not among
    the repository's files: it is an interface here. *)
Class CustomerMongoMapper :=
  customerToMongoDocument : Customer.t → CustomerMongoDocument.

(** A mapper that copies the fields and stores the id as [_id]. *)
Definition copyingMapper : CustomerMongoMapper := λ customer,
  {| _id := uuidToMuuid (Customer.id customer);
     doc_email := Customer.email customer;
     doc_orderIds := uuidToMuuid <$> Customer.orderIds customer;
     doc_addresses := Customer.addresses customer |}.

(** The [customers] collection, and how many ids [UUID()] has drawn. *)
Record World := {
  customers : gmap Binary CustomerMongoDocument;
  drawn : nat;
}.

Definition customerToJs (customer : Customer.t) : JsVal :=
  JsObject [("id", JsString (Customer.id customer));
            ("email", JsString (Customer.email customer));
            ("orderIds", JsArray (JsString <$> Customer.orderIds customer));
            ("addresses",
             JsArray ((λ address, JsObject [("country", JsString (Address.country address))])
                        <$> Customer.addresses customer))].

Section CreateCustomer.
Context {mapper : CustomerMongoMapper}.

(** The id generator behind [UUID()]: [uuid n] is the n-th id drawn. *)
Variable uuid : nat → UUID.

Definition newUuid : Js World UUID :=
  n ← gets drawn;
  _ ← modify (λ w, {| customers := customers w; drawn := S (drawn w) |});
  mret (uuid n).

(** [this.customerCollection.insertOne(document, { session })] *)
Definition insertOne (document : CustomerMongoDocument) (session : option ClientSession)
  : Js World unit := λ w,
  match customers w !! _id document with
  | Some _ => (Threw (MongoError "E11000 duplicate key error"), w)
  | None => (Returned tt,
             {| customers := <[_id document := document]> (customers w); drawn := drawn w |})
  end.

(** [CustomerMongoRepositoryAdapter.addCustomer] *)
Definition addCustomer (customer : Customer.t) (mongoTransactionSession : option ClientSession)
  : Js World unit :=
  let customerDocument := customerToMongoDocument customer in
  catch (insertOne customerDocument mongoTransactionSession)
    (λ _, throw (CustomException "Error adding a customer"
                   (JsObject [("customer", customerToJs customer)]) None)).

Definition createCustomer (payload : CreateCustomerPayload)
    (mongoTransactionSession : ClientSession) : Js World Customer.t :=
  id ← newUuid;
  let customer := {| Customer.id := id; Customer.email := email payload;
                     Customer.orderIds := []; Customer.addresses := [] |} in
  _ ← addCustomer customer (Some mongoTransactionSession);
  mret customer.

(** The customer that [createCustomer] builds for the id drawn at [n]. *)
Definition created (payload : CreateCustomerPayload) (n : nat) : Customer.t :=
  {| Customer.id := uuid n; Customer.email := email payload;
     Customer.orderIds := []; Customer.addresses := [] |}.

End CreateCustomer.

Definition sampleIds (n : nat) : UUID := "customer-" +:+ pretty n.

End CreateCustomer.

(** * Part II: what the code does *)

Module MatchMongoRecorderAdapterFacts.
Import MatchMongoRecorderAdapter.

Section AdapterFacts.
Context {mapper : MatchMongoMapper}.

(** ** What the three methods compute *)

Lemma recordMatch_eq (orderId hostId : UUID) session (c : Collection) :
  recordMatch orderId hostId session c =
    let doc := matchToMongoDocument {| orderId := orderId; hostId := hostId |} in
    match c !! _id doc with
    | Some _ => (Threw (MongoError "E11000 duplicate key error"), c)
    | None => (Returned orderId, <[_id doc := doc]> c)
    end.
Proof.
  unfold recordMatch, mbind, Js_bind, insertOne, mret, Js_ret; simpl.
  by destruct (c !! _).
Qed.

Lemma retrieveAndDeleteMatch_eq (matchId : UUID) session (c : Collection) :
  retrieveAndDeleteMatch matchId session c =
    (mongoDocumentToMatch (c !! matchId), delete matchId c).
Proof.
  unfold retrieveAndDeleteMatch, mbind, Js_bind, findOne, deleteOne, settle, uuidToMuuid.
  by destruct (c !! matchId).
Qed.

Lemma findMatch_absent (orderId hostId : UUID) session (c : Collection) :
  c !! orderId = None →
  findMatch orderId hostId session c =
    (Threw (Exception ENTITY_NOT_FOUND_ERROR
              ("Match (orderId: " +:+ orderId +:+ ", hostId: " +:+ hostId +:+ ") not found")
              (JsObject [("orderId", JsString orderId); ("hostId", JsString hostId)])), c).
Proof.
  intros Hc. unfold findMatch, mbind, Js_bind, findOne, throw, uuidToMuuid.
  by rewrite Hc.
Qed.

(** The read-then-delete leaves no document under the id. *)
Lemma retrieveAndDeleteMatch_deletes (matchId : UUID) session (c : Collection) :
  (retrieveAndDeleteMatch matchId session c).2 !! matchId = None.
Proof. rewrite retrieveAndDeleteMatch_eq. apply lookup_delete_eq. Qed.

End AdapterFacts.

(** ** The adapter run with the destructuring mapper *)

Example retrieveAndDeleteMatch_first_call :
  retrieveAndDeleteMatch (mapper := destructuringMapper) "order-1" None sampleMatches
  = (Returned {| orderId := "order-1"; hostId := "host-1" |}, ∅).
Proof.
  rewrite retrieveAndDeleteMatch_eq. unfold sampleMatches.
  rewrite lookup_singleton_eq, delete_singleton_eq. reflexivity.
Qed.

Example retrieveAndDeleteMatch_second_call :
  retrieveAndDeleteMatch (mapper := destructuringMapper) "order-1" None ∅
  = (Threw (TypeError "Cannot destructure property '_id' of 'undefined' or 'null'"), ∅).
Proof.
  rewrite retrieveAndDeleteMatch_eq, lookup_empty, delete_empty. reflexivity.
Qed.

(** C1. After one [retrieveAndDeleteMatch] for a match id no document is
    left under it, so at most one of the repeated calls reads the stored
    document; but a later call does not reject with a not-found
    exception: it hands [null] to [mongoDocumentToMatch] and settles the
    way the mapper does.  With the destructuring mapper the first call on
    the sample collection returns the match and the second one throws a
    TypeError. *)
Theorem retrieveAndDeleteMatch_repeated :
  (∀ (mapper : MatchMongoMapper) (matchId : UUID) s1 s2 (c : Collection),
     let c1 := (retrieveAndDeleteMatch matchId s1 c).2 in
     c1 !! matchId = None
     ∧ retrieveAndDeleteMatch matchId s2 c1 = (mongoDocumentToMatch None, c1))
  ∧ retrieveAndDeleteMatch (mapper := destructuringMapper) "order-1" None sampleMatches
    = (Returned {| orderId := "order-1"; hostId := "host-1" |}, ∅)
  ∧ retrieveAndDeleteMatch (mapper := destructuringMapper) "order-1" None ∅
    = (Threw (TypeError "Cannot destructure property '_id' of 'undefined' or 'null'"), ∅).
Proof.
  split; [| split].
  - intros mapper matchId s1 s2 c c1.
    assert (Hgone : c1 !! matchId = None) by apply retrieveAndDeleteMatch_deletes.
    split; [exact Hgone |].
    rewrite retrieveAndDeleteMatch_eq, Hgone.
    f_equal. by apply delete_id.
  - apply retrieveAndDeleteMatch_first_call.
  - apply retrieveAndDeleteMatch_second_call.
Qed.

(** C2. On a collection that holds no document with the match id,
    [retrieveAndDeleteMatch] settles as [mongoDocumentToMatch(null)] and
    leaves the collection as it was, a TypeError with the destructuring
    mapper; the sibling [findMatch] is the one that rejects with
    [ENTITY_NOT_FOUND_ERROR] there. *)
Theorem retrieveAndDeleteMatch_absent :
  (∀ (mapper : MatchMongoMapper) (matchId : UUID) session (c : Collection),
     c !! matchId = None →
     retrieveAndDeleteMatch matchId session c = (mongoDocumentToMatch None, c))
  ∧ (∀ (mapper : MatchMongoMapper) (matchId hostId : UUID) session (c : Collection),
       c !! matchId = None →
       ∃ message data,
         findMatch matchId hostId session c
         = (Threw (Exception ENTITY_NOT_FOUND_ERROR message data), c))
  ∧ ∃ message,
      retrieveAndDeleteMatch (mapper := destructuringMapper) "order-1" None ∅
      = (Threw (TypeError message), ∅).
Proof.
  split; [| split].
  - intros mapper matchId session c Hc.
    rewrite retrieveAndDeleteMatch_eq, Hc. f_equal. by apply delete_id.
  - intros mapper matchId hostId session c Hc.
    eexists _, _. by apply findMatch_absent.
  - eexists. rewrite retrieveAndDeleteMatch_eq, lookup_empty, delete_empty. reflexivity.
Qed.

(** The match id that [recordMatch] returns for an order is the order's
    id, on every attempt: here before and after the match is consumed. *)
Lemma recordMatch_returns_orderId :
  recordMatch (mapper := destructuringMapper) "order-1" "host-1" None ∅
  = (Returned "order-1", sampleMatches)
  ∧ retrieveAndDeleteMatch (mapper := destructuringMapper) "order-1" None sampleMatches
    = (Returned {| orderId := "order-1"; hostId := "host-1" |}, ∅)
  ∧ recordMatch (mapper := destructuringMapper) "order-1" "host-2" None ∅
    = (Returned "order-1", {[ "order-1" := {| _id := "order-1"; doc_hostId := "host-2" |} ]}).
Proof.
  split; [| split].
  - rewrite recordMatch_eq. simpl. by rewrite lookup_empty.
  - apply retrieveAndDeleteMatch_first_call.
  - rewrite recordMatch_eq. simpl. by rewrite lookup_empty.
Qed.

End MatchMongoRecorderAdapterFacts.

Module SubmitShipmentInfoFacts.
Import SubmitShipmentInfo.

(** ** The filter of [getUnfinalizedItems] *)

Lemma not_finalized_incomplete (item : Item.t) :
  negb (truthyDate (Item.receivedDate item) && truthyNumber (length (Item.photos item))) = true
  ↔ incomplete item.
Proof.
  unfold incomplete, truthyDate, truthyNumber.
  rewrite negb_true_iff, andb_false_iff, !bool_decide_eq_false.
  rewrite <- eq_None_not_Some.
  destruct (Item.photos item); simpl; intuition congruence.
Qed.

Lemma unfinalized_filter (items : list Item.t) :
  List.filter
    (λ item, negb (truthyDate (Item.receivedDate item)
                   && truthyNumber (length (Item.photos item)))) items
  = filter incomplete items.
Proof.
  induction items as [|item items IH]; [done |].
  simpl. rewrite filter_cons, IH.
  destruct (negb _) eqn:Hb.
  - apply not_finalized_incomplete in Hb. by rewrite decide_True.
  - rewrite decide_False; [done |].
    intros Hi. apply not_finalized_incomplete in Hi. congruence.
Qed.

Lemma incomplete_not_complete (item : Item.t) : incomplete item ↔ ¬ complete item.
Proof.
  unfold incomplete, complete. rewrite <- not_eq_None_Some.
  destruct (Item.receivedDate item), (Item.photos item); intuition congruence.
Qed.

Lemma offending_nil (items : list Item.t) :
  filter incomplete items = [] ↔ ∀ item, item ∈ items → complete item.
Proof.
  split.
  - intros Hnil item Hin.
    destruct (decide (incomplete item)) as [Hi|Hn].
    + by destruct (filter_nil_not_elem_of incomplete _ item Hnil Hi).
    + rewrite incomplete_not_complete in Hn.
      destruct (Item.receivedDate item) eqn:Hd, (Item.photos item) eqn:Hp;
        unfold complete in *; rewrite ?Hd, ?Hp in *; try done;
        exfalso; apply Hn; intros []; done.
  - intros Hall.
    destruct (filter incomplete items) as [|item rest] eqn:Hf; [done |].
    assert (item ∈ filter incomplete items) as Hin by (rewrite Hf; left).
    apply list_elem_of_filter in Hin as [Hi Hin].
    apply incomplete_not_complete in Hi. by destruct Hi; apply Hall.
Qed.

Lemma offending_cons (items : list Item.t) :
  filter incomplete items ≠ [] ↔ ∃ item, item ∈ items ∧ incomplete item.
Proof.
  split.
  - destruct (filter incomplete items) as [|item rest] eqn:Hf; [done |].
    intros _. exists item.
    assert (item ∈ filter incomplete items) as Hin by (rewrite Hf; left).
    apply list_elem_of_filter in Hin. tauto.
  - intros (item & Hin & Hi) Hnil.
    by destruct (filter_nil_not_elem_of incomplete _ item Hnil Hi).
Qed.

(** ** Running the use case *)

Lemma lookupOrder_load request w order :
  orders w !! orderId request = Some order →
  Order.status order = Confirmed →
  Order.hostId order = Some (hostId request) →
  lookupOrder (loadFilter request) w = Some order.
Proof.
  intros Hw Hs Hh. unfold lookupOrder, selects, loadFilter; simpl.
  rewrite Hw; simpl. by rewrite !bool_decide_eq_true_2.
Qed.

Lemma assign_update request order : assign (update request) order = finalized request order.
Proof.
  unfold assign, finalized, update; simpl. f_equal.
  destruct (calculatorResultUrl request) as [url|]; simpl; [| done].
  destruct (decide (url = "")) as [->|Hne]; [done |].
  by rewrite bool_decide_eq_true_2.
Qed.

Lemma getUnfinalizedItems_run request w order :
  lookupOrder (loadFilter request) w = Some order →
  getUnfinalizedItems (orderId request) (hostId request) w
  = (Returned (filter incomplete (Order.items order)), loaded request w).
Proof.
  intros Hl.
  unfold getUnfinalizedItems, findOrder, journalCall, modify, gets, mbind, Js_bind, mret, Js_ret.
  fold (loadFilter request). fold (loaded request w).
  replace (lookupOrder (loadFilter request) (loaded request w)) with (Some order) by done.
  by rewrite unfinalized_filter.
Qed.

Lemma getUnfinalizedItems_miss request w :
  lookupOrder (loadFilter request) w = None →
  getUnfinalizedItems (orderId request) (hostId request) w
  = (Threw (Collaborator OrderNotFound), loaded request w).
Proof.
  intros Hl.
  unfold getUnfinalizedItems, findOrder, journalCall, modify, gets, mbind, Js_bind, throw.
  fold (loadFilter request). fold (loaded request w).
  by replace (lookupOrder (loadFilter request) (loaded request w)) with (@None Order.t).
Qed.

Lemma finalizeOrder_blocked request session w order :
  lookupOrder (loadFilter request) w = Some order →
  filter incomplete (Order.items order) ≠ [] →
  finalizeOrder request session w
  = (Threw (IncompleteItems (orderId request)
              (Item.id <$> filter incomplete (Order.items order))),
     loaded request w).
Proof.
  intros Hl Hne. unfold finalizeOrder.
  unfold mbind at 1. unfold Js_bind at 1.
  rewrite (getUnfinalizedItems_run _ _ _ Hl).
  destruct (filter incomplete (Order.items order)) as [|item rest]; done.
Qed.

Lemma finalizeOrder_passed request session w order :
  orders w !! orderId request = Some order →
  lookupOrder (loadFilter request) w = Some order →
  filter incomplete (Order.items order) = [] →
  finalizeOrder request session w = (Returned tt, updated request session order w).
Proof.
  intros Hw Hl Hnil. unfold finalizeOrder.
  unfold mbind at 1. unfold Js_bind at 1.
  rewrite (getUnfinalizedItems_run _ _ _ Hl), Hnil.
  unfold setProperties, journalCall, modify, gets, mbind, Js_bind, mret, Js_ret, lookupOrder, selects.
  simpl. rewrite Hw. simpl.
  fold (update request) (updateFilter request).
  rewrite assign_update. unfold updated.
  by rewrite <- app_assoc.
Qed.

Lemma lookupOrder_Some filter w order :
  lookupOrder filter w = Some order → orders w !! filter_orderId filter = Some order.
Proof.
  unfold lookupOrder. destruct (orders w !! _) as [o|]; [| done].
  destruct (selects filter o); congruence.
Qed.

(** A [finalizeOrder] that throws has written nothing, so the abort of
    the enclosing transaction has nothing to discard: [execute] ends with
    the outcome and the orders of [finalizeOrder]. *)
Lemma finalizeOrder_threw request session w error w' :
  finalizeOrder request session w = (Threw error, w') → orders w' = orders w.
Proof.
  destruct (lookupOrder (loadFilter request) w) as [order|] eqn:Hl.
  - destruct (decide (filter incomplete (Order.items order) = [])) as [Hnil|Hne].
    + pose proof (lookupOrder_Some _ _ _ Hl) as Hw.
      rewrite (finalizeOrder_passed _ session _ _ Hw Hl Hnil). discriminate.
    + rewrite (finalizeOrder_blocked _ session _ _ Hl Hne). by intros [= _ <-].
  - unfold finalizeOrder, mbind. unfold Js_bind at 1.
    rewrite (getUnfinalizedItems_miss _ _ Hl). by intros [= _ <-].
Qed.

Lemma execute_finalizeOrder request session w :
  (execute request session w).1
  = (finalizeOrder request (default (Session 0) session) w).1
  ∧ orders (execute request session w).2
    = orders (finalizeOrder request (default (Session 0) session) w).2.
Proof.
  unfold execute, withTransaction.
  destruct (finalizeOrder _ _ w) as [[[]|error] w'] eqn:Hrun; [done |].
  split; [done |]. simpl. symmetry. by eapply finalizeOrder_threw.
Qed.

(** C4. For an order in status Confirmed and a request by its assigned
    host: [finalizeOrder] rejects with the exception that carries the ids
    of the incomplete items, leaving every stored order as it was,
    exactly when some item lacks [receivedDate] or has no photo; it
    returns exactly when all items are complete, and then the stored
    order has status Finalized, the request's [totalWeight] and
    [shipmentCost] as [finalShipmentCost], and the request's
    [calculatorResultUrl] when it carries a non-empty one. *)
Theorem finalizeOrder_gate request session w order :
  orders w !! orderId request = Some order →
  Order.status order = Confirmed →
  Order.hostId order = Some (hostId request) →
  ((∃ item, item ∈ Order.items order ∧ incomplete item) ↔
   (∃ w', finalizeOrder request session w
          = (Threw (IncompleteItems (orderId request)
                      (Item.id <$> filter incomplete (Order.items order))), w')
          ∧ orders w' = orders w))
  ∧ ((∀ item, item ∈ Order.items order → complete item) ↔
     (∃ w', finalizeOrder request session w = (Returned tt, w')
            ∧ orders w' = <[orderId request := finalized request order]> (orders w))).
Proof.
  intros Hw Hs Hh.
  pose proof (lookupOrder_load _ _ _ Hw Hs Hh) as Hl.
  destruct (decide (filter incomplete (Order.items order) = [])) as [Hnil|Hne].
  - pose proof (finalizeOrder_passed _ session _ _ Hw Hl Hnil) as Hrun.
    split; split.
    + intros Hex. apply offending_cons in Hex. done.
    + intros (w' & Hthrew & _). rewrite Hrun in Hthrew. discriminate.
    + intros _. eexists. split; [exact Hrun | done].
    + intros _. by apply offending_nil.
  - pose proof (finalizeOrder_blocked _ session _ _ Hl Hne) as Hrun.
    split; split.
    + intros _. eexists. split; [exact Hrun | done].
    + intros _. by apply offending_cons.
    + intros Hall. apply offending_nil in Hall. done.
    + intros (w' & Hret & _). rewrite Hrun in Hret. discriminate.
Qed.

(** C9. Whatever the request and the store, the first repository call
    of [finalizeOrder] is the filtered [findOrder], and it is made with
    no transaction handle; when the update is reached, it is the only
    call that is given the session. *)
Theorem finalizeOrder_load_without_session request session w :
  let after := (finalizeOrder request session w).2 in
  journal after = journal w ++ [FindOrderCall (loadFilter request) None]
  ∨ journal after = journal w ++ [FindOrderCall (loadFilter request) None;
                                  SetPropertiesCall (updateFilter request) (update request)
                                    (Some session)].
Proof.
  simpl.
  destruct (lookupOrder (loadFilter request) w) as [order|] eqn:Hl.
  - destruct (decide (filter incomplete (Order.items order) = [])) as [Hnil|Hne].
    + right. pose proof (lookupOrder_Some _ _ _ Hl) as Hw.
      by rewrite (finalizeOrder_passed _ session _ _ Hw Hl Hnil).
    + left. by rewrite (finalizeOrder_blocked _ session _ _ Hl Hne).
  - left. unfold finalizeOrder, mbind. unfold Js_bind at 1.
    by rewrite (getUnfinalizedItems_miss _ _ Hl).
Qed.

Lemma finalizeOrder_gate_witness :
  (∃ w', finalizeOrder sampleRequest (Session 1) (storeOf (confirmedOrder [laptop; phone]))
         = (Threw (IncompleteItems "order-1" ["item-2"]), w')
         ∧ orders w' = orders (storeOf (confirmedOrder [laptop; phone])))
  ∧ (∃ w', finalizeOrder sampleRequest (Session 1) (storeOf (confirmedOrder [laptop]))
           = (Returned tt, w')
           ∧ orders w'
             = <["order-1" := finalized sampleRequest (confirmedOrder [laptop])]>
                 (orders (storeOf (confirmedOrder [laptop])))).
Proof.
  split.
  - apply (finalizeOrder_gate sampleRequest (Session 1)
             (storeOf (confirmedOrder [laptop; phone])) (confirmedOrder [laptop; phone])).
    + apply lookup_singleton_eq.
    + reflexivity.
    + reflexivity.
    + exists phone. split; [apply list_elem_of_In; simpl; tauto | by left].
  - apply (finalizeOrder_gate sampleRequest (Session 1)
             (storeOf (confirmedOrder [laptop])) (confirmedOrder [laptop])).
    + apply lookup_singleton_eq.
    + reflexivity.
    + reflexivity.
    + intros item Hin. apply list_elem_of_In in Hin as [<-|[]].
      split; [by eexists | discriminate].
Defined.

Example finalized_fields :
  Order.status (finalized sampleRequest (confirmedOrder [laptop])) = Finalized
  ∧ Order.totalWeight (finalized sampleRequest (confirmedOrder [laptop])) = Some 11%Z
  ∧ Order.finalShipmentCost (finalized sampleRequest (confirmedOrder [laptop]))
    = Some {| Cost.amount := 2500; Cost.currency := "usd" |}
  ∧ Order.calculatorResultUrl (finalized sampleRequest (confirmedOrder [laptop]))
    = Some "https://calculator.example/result"
  ∧ Order.hostId (finalized sampleRequest (confirmedOrder [laptop])) = Some "host-1".
Proof. repeat split. Qed.

Example finalizeOrder_journal :
  journal (finalizeOrder sampleRequest (Session 1) (storeOf (confirmedOrder [laptop]))).2
  = [FindOrderCall (loadFilter sampleRequest) None;
     SetPropertiesCall (updateFilter sampleRequest) (update sampleRequest) (Some (Session 1))].
Proof.
  rewrite (finalizeOrder_passed sampleRequest (Session 1) _ (confirmedOrder [laptop]));
    [done | apply lookup_singleton_eq | | done].
  apply lookupOrder_load; [apply lookup_singleton_eq | done | done].
Qed.

End SubmitShipmentInfoFacts.

Module CustomerMongoRepositoryAdapterFacts.
Import CustomerMongoRepositoryAdapter.

Lemma addOrderToCustomer_eq order transaction (c : Collection) :
  addOrderToCustomer order transaction c
  = (Returned tt, alter (push (id order)) (customerId order) c).
Proof. reflexivity. Qed.

(** C10. [addOrderToCustomer] pushes without a condition: for a customer
    id that matches no stored customer it returns and the collection is
    as it was; for a stored customer one call appends the order id to
    [orderIds], and a second call with the same order appends it again,
    so the list ends with the order id twice. *)
Theorem addOrderToCustomer_unconditional order t1 t2 (c : Collection) :
  (c !! customerId order = None → addOrderToCustomer order t1 c = (Returned tt, c))
  ∧ (∀ doc, c !! customerId order = Some doc →
       ∃ c1 c2,
         addOrderToCustomer order t1 c = (Returned tt, c1)
         ∧ c1 !! customerId order
           = Some {| _id := _id doc; orderIds := orderIds doc ++ [id order];
                     addresses := addresses doc |}
         ∧ addOrderToCustomer order t2 c1 = (Returned tt, c2)
         ∧ c2 !! customerId order
           = Some {| _id := _id doc; orderIds := orderIds doc ++ [id order; id order];
                     addresses := addresses doc |}).
Proof.
  split.
  - intros Hnone. rewrite addOrderToCustomer_eq. f_equal.
    apply map_eq. intros k. rewrite lookup_alter.
    case_decide as Hk; [| done]. subst k. by rewrite Hnone.
  - intros doc Hdoc. eexists _, _.
    split; [apply addOrderToCustomer_eq |].
    split; [by rewrite lookup_alter_eq, Hdoc |].
    split; [apply addOrderToCustomer_eq |].
    rewrite !lookup_alter_eq, Hdoc. simpl. unfold push; simpl.
    by rewrite <- app_assoc.
Qed.

Lemma addOrderToCustomer_witness :
  addOrderToCustomer {| id := "order-1"; customerId := "customer-9" |} None sampleCustomers
  = (Returned tt, sampleCustomers)
  ∧ ∃ c1 c2,
      addOrderToCustomer {| id := "order-1"; customerId := "customer-1" |} None sampleCustomers
      = (Returned tt, c1)
      ∧ c1 !! "customer-1"
        = Some {| _id := "customer-1"; orderIds := ["order-1"]; addresses := [] |}
      ∧ addOrderToCustomer {| id := "order-1"; customerId := "customer-1" |} None c1
        = (Returned tt, c2)
      ∧ c2 !! "customer-1"
        = Some {| _id := "customer-1"; orderIds := ["order-1"; "order-1"]; addresses := [] |}.
Proof.
  split.
  - apply (addOrderToCustomer_unconditional
             {| id := "order-1"; customerId := "customer-9" |} None None sampleCustomers).
    by apply lookup_singleton_ne.
  - apply (proj2 (addOrderToCustomer_unconditional
                    {| id := "order-1"; customerId := "customer-1" |} None None sampleCustomers)
             {| _id := "customer-1"; orderIds := []; addresses := [] |}).
    apply lookup_singleton_eq.
Defined.

End CustomerMongoRepositoryAdapterFacts.

Module StripeCheckoutWebhookFacts.
Import StripeCheckoutWebhook.

(** C7. The dispatcher hands a payload whose [feeType] is
    [FeeType.Service] to the confirm-order handler and one whose
    [feeType] is [FeeType.Shipment] to the pay-shipment handler, and its
    outcome is the handler's; for any other or missing [feeType] it
    throws the unexpected-type exception with the store untouched,
    whatever the two handlers are, so neither has run. *)
Theorem execute_routes {W R} (event : StripeEvent) (w : W) :
  let webhookPayload := metadata (object (data event)) in
  (webhookPayload !! "feeType" = Some FeeType.Service →
   ∀ handlers : Handlers W R, execute event w = confirmOrderWebhookGateway webhookPayload w)
  ∧ (webhookPayload !! "feeType" = Some FeeType.Shipment →
     ∀ handlers : Handlers W R, execute event w = payShipmentWebhookGateway webhookPayload w)
  ∧ (webhookPayload !! "feeType" ≠ Some FeeType.Service →
     webhookPayload !! "feeType" ≠ Some FeeType.Shipment →
     ∀ handlers : Handlers W R,
       execute event w = (Threw (UnexpectedWebhookType webhookPayload), w)).
Proof.
  intros webhookPayload. unfold execute. fold webhookPayload.
  split; [| split].
  - intros -> handlers. by rewrite decide_True.
  - intros -> handlers. rewrite decide_False by done. by rewrite decide_True.
  - intros Hservice Hshipment handlers.
    destruct (webhookPayload !! "feeType") as [feeType|]; [| done].
    rewrite !decide_False; [done | |]; congruence.
Qed.

Lemma execute_routes_witness :
  execute (handlers := journalling) (completed {[ "feeType" := "service"; "matchId" := "match-1" ]}) []
  = (Returned tt, [ConfirmOrderHandler {[ "feeType" := "service"; "matchId" := "match-1" ]}])
  ∧ execute (handlers := journalling)
      (completed {[ "feeType" := "shipment"; "orderId" := "order-1" ]}) []
    = (Returned tt, [PayShipmentHandler {[ "feeType" := "shipment"; "orderId" := "order-1" ]}])
  ∧ execute (handlers := journalling) (completed {[ "feeType" := "refund" ]}) []
    = (Threw (UnexpectedWebhookType {[ "feeType" := "refund" ]}), [])
  ∧ execute (handlers := journalling) (completed ∅) [] = (Threw (UnexpectedWebhookType ∅), []).
Proof.
  split; [| split; [| split]].
  - refine (proj1 (execute_routes
                     (completed {[ "feeType" := "service"; "matchId" := "match-1" ]}) [])
              _ journalling).
    vm_compute. reflexivity.
  - refine (proj1 (proj2 (execute_routes
                            (completed {[ "feeType" := "shipment"; "orderId" := "order-1" ]}) []))
              _ journalling).
    vm_compute. reflexivity.
  - refine (proj2 (proj2 (execute_routes (completed {[ "feeType" := "refund" ]}) []))
              _ _ journalling); vm_compute; congruence.
  - refine (proj2 (proj2 (execute_routes (completed ∅) [])) _ _ journalling);
      vm_compute; congruence.
Defined.

End StripeCheckoutWebhookFacts.

Module ConfirmOrderServiceFacts.
Import ConfirmOrderService.

Section ConfirmOrderFacts.
Context {deps : Dependencies}.

Ltac run := unfold mbind, Js_bind, mret, Js_ret, gets, modify, throw, catch; simpl.

Lemma serviceAvailabileOrThrow_run order w :
  serviceAvailabileOrThrow order w =
    if covered order then (Returned tt, w)
    else (Threw (ServiceUnavailable (Order.originCountry order)
                   (Address.country (Order.destination order))), w).
Proof.
  unfold serviceAvailabileOrThrow, checkServiceAvailability, covered. run.
  by destruct (_ && _).
Qed.

Lemma matchOrderToHost_run order session w :
  matchOrderToHost order session w =
    match availableIn (Order.originCountry order) w with
    | None => (Threw (Collaborator NoHostAvailable), w)
    | Some host =>
        match matches w !! uuid (drawn w) with
        | Some _ => (Threw (Collaborator DuplicateMatch), withDrawn w)
        | None =>
            (Returned (uuid (drawn w)),
             withMatches <[uuid (drawn w) := matchOf order host w]> (withDrawn w))
        end
    end.
Proof.
  unfold matchOrderToHost, matchHost, newEntityId, recordMatch, availableIn, value. run.
  destruct (List.find _ _) as [host|]; [| done]. simpl.
  by destruct (matches w !! uuid (drawn w)).
Qed.

Lemma matchOrderAndCheckout_run orderId session w :
  matchOrderAndCheckout orderId session w =
    match orders w !! orderId with
    | None => (Threw (Collaborator OrderNotFound), w)
    | Some order =>
        if covered order then
          match matchOrderToHost order session w with
          | (Threw error, w1) => (Threw error, withEmitted "order.rejected.host_availability" w1)
          | (Returned matchId, w1) =>
              match sessionsCreate (checkouts w1) (checkoutParams matchId) with
              | inl message => (Threw (StripeError message), withCheckout (checkoutParams matchId) w1)
              | inr checkoutSession =>
                  (Returned checkoutSession,
                   withEmitted "order.awaiting_payment"
                     (withCheckout (checkoutParams matchId) w1))
              end
          end
        else
          (Threw (ServiceUnavailable (Order.originCountry order)
                    (Address.country (Order.destination order))),
           withEmitted "order.rejected.service_availability" w)
    end.
Proof.
  unfold matchOrderAndCheckout, findOrder, value.
  unfold mbind at 1. unfold Js_bind at 1. unfold mbind at 1. unfold Js_bind at 1.
  unfold gets at 1.
  destruct (orders w !! orderId) as [order|]; [| done].
  unfold mret at 1. unfold Js_ret at 1.
  unfold mbind at 1. unfold Js_bind at 1. unfold catch at 1.
  rewrite serviceAvailabileOrThrow_run.
  destruct (covered order); [| done].
  unfold mbind at 1. unfold Js_bind at 1. unfold catch at 1.
  destruct (matchOrderToHost order session w) as [[matchId|error] w1]; [| done].
  unfold stripeCheckoutSessionsCreate, emit. run.
  by destruct (sessionsCreate _ _).
Qed.

Lemma execute_run request w :
  execute request w =
    match matchOrderAndCheckout (orderId request) (Session 0) w with
    | (Returned checkoutSession, w1) =>
        (Returned {| checkoutId := StripeCheckoutWebhook.id checkoutSession |}, w1)
    | (Threw error, w1) => (Threw error, withMatches (λ _, matches w) w1)
    end.
Proof.
  unfold execute, withTransaction. run.
  by destruct (matchOrderAndCheckout _ _ w) as [[checkoutSession|error] w1].
Qed.

(** The matching phase, when it is the one that fails, has changed
    nothing but the list of emitted events. *)
Lemma matching_phase_rejection orderId session w error w' :
  matchOrderAndCheckout orderId session w = (Threw error, w') →
  ((∃ originCountry destinationCountry,
      error = ServiceUnavailable originCountry destinationCountry) →
   w' = withEmitted "order.rejected.service_availability" w)
  ∧ (error = Collaborator NoHostAvailable →
     w' = withEmitted "order.rejected.host_availability" w).
Proof.
  rewrite matchOrderAndCheckout_run.
  destruct (orders w !! orderId) as [order|].
  - destruct (covered order).
    + rewrite matchOrderToHost_run.
      destruct (availableIn _ w) as [host|].
      * destruct (matches w !! uuid (drawn w)).
        -- intros [= <- <-]. split; [intros (? & ? & [=]) | intros [=]].
        -- destruct (sessionsCreate _ _); intros [= <- <-].
           split; [intros (? & ? & [=]) | intros [=]].
      * intros [= <- <-]. split; [intros (? & ? & [=]) | done].
    + intros [= <- <-]. split; [done | intros [=]].
  - intros [= <- <-]. split; [intros (? & ? & [=]) | intros [=]].
Qed.

(** C5. When the confirmation, in [matchOrderAndCheckout] or in the
    whole of [execute], fails with the service-unavailable exception or
    with NoHostAvailable, the matching rejection event has been emitted
    and nothing else has happened: the order store, with the order in the
    status it had, and the match ledger are as they were, and no checkout
    session was requested. *)
Theorem matching_rejection_mutates_nothing orderId session w error w' :
  matchOrderAndCheckout orderId session w = (Threw error, w')
  ∨ execute {| orderId := orderId |} w = (Threw error, w') →
  ((∃ originCountry destinationCountry,
      error = ServiceUnavailable originCountry destinationCountry) →
   emitted w' = emitted w ++ ["order.rejected.service_availability"]
   ∧ orders w' = orders w ∧ matches w' = matches w ∧ checkouts w' = checkouts w)
  ∧ (error = Collaborator NoHostAvailable →
     emitted w' = emitted w ++ ["order.rejected.host_availability"]
     ∧ orders w' = orders w ∧ matches w' = matches w ∧ checkouts w' = checkouts w).
Proof.
  intros [Hinner|Houter].
  - destruct (matching_phase_rejection _ _ _ _ _ Hinner) as [Hservice Hhost].
    split; intros Herror; [rewrite (Hservice Herror) | rewrite (Hhost Herror)]; done.
  - rewrite execute_run in Houter. simpl in Houter.
    destruct (matchOrderAndCheckout orderId (Session 0) w)
      as [[checkoutSession|error1] w1] eqn:Hinner; [discriminate |].
    injection Houter as <- <-.
    destruct (matching_phase_rejection _ _ _ _ _ Hinner) as [Hservice Hhost].
    split; intros Herror; [rewrite (Hservice Herror) | rewrite (Hhost Herror)]; done.
Qed.

(** A run that returns has found the order, matched a host, recorded the
    match under the id just drawn, requested the checkout session and
    emitted the awaiting-payment event. *)
Lemma execute_returned request w result w' :
  execute request w = (Returned result, w') →
  ∃ order host,
    orders w !! orderId request = Some order
    ∧ availableIn (Order.originCountry order) w = Some host
    ∧ matches w !! uuid (drawn w) = None
    ∧ w' = withEmitted "order.awaiting_payment"
             (withCheckout (checkoutParams (uuid (drawn w)))
                (withMatches <[uuid (drawn w) := matchOf order host w]> (withDrawn w))).
Proof.
  rewrite execute_run, matchOrderAndCheckout_run.
  destruct (orders w !! orderId request) as [order|] eqn:Horder; [| done].
  destruct (covered order); [| done].
  rewrite matchOrderToHost_run.
  destruct (availableIn _ w) as [host|] eqn:Hhost; [| done].
  destruct (matches w !! uuid (drawn w)) eqn:Hfree; [done |].
  destruct (sessionsCreate _ _); [done |].
  intros [= <- <-]. by exists order, host.
Qed.

(** C6. A confirm-order run that returns a checkout id has left the
    order store exactly as it was, so the order keeps every field and its
    status, and the hosts too; the match ledger has gained one record,
    under an id that was free, for this order and the matched host. *)
Theorem confirm_leaves_order_as_it_was request w result w' :
  execute request w = (Returned result, w') →
  orders w' = orders w
  ∧ hosts w' = hosts w
  ∧ ∃ order record,
      orders w' !! orderId request = Some order
      ∧ Match.orderId record = Order.id order
      ∧ matches w !! value (Match.id record) = None
      ∧ matches w' = <[value (Match.id record) := record]> (matches w).
Proof.
  intros Hrun.
  destruct (execute_returned _ _ _ _ Hrun) as (order & host & Horder & _ & Hfree & ->).
  split; [done |]. split; [done |].
  by exists order, (matchOf order host w).
Qed.

(** C8. The checkout session requested by a run that returns charges
    one line item of 10000 cents in USD and carries the id of the match
    this run recorded as [client_reference_id]; the request has no
    metadata, so neither a fee type nor a match id is embedded there. *)
Theorem checkout_request_shape request w result w' :
  execute request w = (Returned result, w') →
  ∃ record params,
    matches w !! value (Match.id record) = None
    ∧ matches w' !! value (Match.id record) = Some record
    ∧ checkouts w' = checkouts w ++ [params]
    ∧ Stripe.line_items params
      = [{| Stripe.price_data :=
              {| Stripe.currency := "usd"; Stripe.unit_amount := 10000;
                 Stripe.product_data := {| Stripe.name := "Locly and Host Service Fee" |} |};
            Stripe.quantity := 1 |}]
    ∧ Stripe.client_reference_id params = Some (value (Match.id record))
    ∧ Stripe.metadata params = None.
Proof.
  intros Hrun.
  destruct (execute_returned _ _ _ _ Hrun) as (order & host & _ & _ & Hfree & ->).
  exists (matchOf order host w), (checkoutParams (uuid (drawn w))).
  split; [done |]. split; [apply lookup_insert_eq |]. done.
Qed.

(** A fresh generator draws an id that no recorded match has. *)
Lemma freshGenerator_free w n :
  freshGenerator w → (drawn w ≤ n)%nat → matches w !! uuid n = None.
Proof.
  intros [_ Hfresh] Hn. apply eq_None_not_Some. intros Hsome.
  apply (Hfresh n Hn). right. right. exact Hsome.
Qed.

(** An attempt that finds a host leaves the generator fresh. *)
Lemma freshGenerator_step order host w :
  freshGenerator w →
  freshGenerator (withMatches <[uuid (drawn w) := matchOf order host w]> (withDrawn w)).
Proof.
  intros [Hinj Hfresh]. split; [exact Hinj |].
  cbn [drawn withMatches withDrawn]. intros n Hn Hused.
  destruct Hused as [Horder | [Hhost | Hmatch]].
  - apply (Hfresh n); [lia |]. by left.
  - apply (Hfresh n); [lia |]. right. by left.
  - cbn [matches withMatches withDrawn] in Hmatch.
    apply lookup_insert_is_Some in Hmatch as [Heq | [_ Hmatch]].
    + apply Hinj in Heq. lia.
    + apply (Hfresh n); [lia |]. right. by right.
Qed.

(** C3. With a generator behind [new EntityId()] that is fresh, every
    attempt of [matchOrderToHost] for a stored order for which a host
    is available returns, and so does the next attempt for the same
    order.  The match id is the id the generator draws and is not
    derived from the order: any other order of the same origin country
    gets the very same id in the same state.  Each match is recorded
    under its id for the order and the host; the two match ids are
    distinct and neither is the order id, and the generator is fresh
    again afterwards.  [MatchMongoRecorderAdapter.recordMatch] draws no
    id: the match id it returns is the order id. *)
Theorem match_id_is_drawn {mapper : MatchMongoRecorderAdapter.MatchMongoMapper}
    order host s1 s2 w :
  freshGenerator w →
  (∃ key, orders w !! key = Some order) →
  availableIn (Order.originCountry order) w = Some host →
  ∃ m1 w1 m2 w2,
    matchOrderToHost order s1 w = (Returned m1, w1)
    ∧ matchOrderToHost order s2 w1 = (Returned m2, w2)
    ∧ (∀ other session,
         Order.originCountry other = Order.originCountry order →
         (matchOrderToHost other session w).1 = Returned m1)
    ∧ matches w2 !! value m1
      = Some {| Match.id := m1; Match.orderId := Order.id order;
                Match.hostId := Host.id host |}
    ∧ matches w2 !! value m2
      = Some {| Match.id := m2; Match.orderId := Order.id order;
                Match.hostId := Host.id host |}
    ∧ m1 ≠ m2
    ∧ m1 ≠ Order.id order
    ∧ m2 ≠ Order.id order
    ∧ freshGenerator w2
    ∧ (∀ hostId session c matchId c',
         MatchMongoRecorderAdapter.recordMatch (Order.id order) hostId session c
         = (Returned matchId, c') →
         matchId = Order.id order).
Proof.
  intros Hfresh [key Hstored] Hhost.
  pose proof (freshGenerator_step order host w Hfresh) as Hfresh1.
  set (w1 := withMatches <[uuid (drawn w) := matchOf order host w]> (withDrawn w)) in *.
  pose proof (freshGenerator_step order host w1 Hfresh1) as Hfresh2.
  set (w2 := withMatches <[uuid (drawn w1) := matchOf order host w1]> (withDrawn w1)) in *.
  assert (availableIn (Order.originCountry order) w1 = Some host) as Hhost1 by exact Hhost.
  assert (uuid (drawn w) ≠ uuid (drawn w1)) as Hdistinct.
  { intros Heq. apply (proj1 Hfresh) in Heq. cbn in Heq. lia. }
  assert (∀ n, (drawn w ≤ n)%nat → uuid n ≠ Order.id order) as Hother.
  { intros n Hn Heq. apply (proj2 Hfresh n Hn). left. by exists key, order. }
  exists (uuid (drawn w)), w1, (uuid (drawn w1)), w2.
  split.
  { by rewrite matchOrderToHost_run, Hhost, (freshGenerator_free w (drawn w) Hfresh). }
  split.
  { by rewrite matchOrderToHost_run, Hhost1, (freshGenerator_free w1 (drawn w1) Hfresh1). }
  split.
  { intros other session Horigin.
    by rewrite matchOrderToHost_run, Horigin, Hhost, (freshGenerator_free w (drawn w) Hfresh). }
  split.
  { unfold value. cbn [matches w2 withMatches withDrawn].
    rewrite lookup_insert_ne by (intros Heq; by apply Hdistinct).
    cbn [matches w1 withMatches withDrawn]. by rewrite lookup_insert_eq. }
  split.
  { unfold value. cbn [matches w2 withMatches withDrawn]. by rewrite lookup_insert_eq. }
  split; [exact Hdistinct |].
  split; [by apply Hother |].
  split; [apply Hother; cbn; lia |].
  split; [exact Hfresh2 |].
  intros hostId session c matchId c'.
  rewrite MatchMongoRecorderAdapterFacts.recordMatch_eq. simpl.
  destruct (c !! _); congruence.
Qed.

End ConfirmOrderFacts.

Lemma matching_rejection_witness :
  (matchOrderAndCheckout (deps := sampleDependencies)
     "order-1" (Session 0) (worldOf (draftedOrder "ZZ"))
   = (Threw (Collaborator NoHostAvailable), rejectedForHost)
   ∧ emitted rejectedForHost = ["order.rejected.host_availability"]
   ∧ orders rejectedForHost = orders (worldOf (draftedOrder "ZZ"))
   ∧ matches rejectedForHost = ∅
   ∧ checkouts rejectedForHost = [])
  ∧ (execute (deps := sampleDependencies)
       {| orderId := "order-1" |} (worldOf (draftedOrder "XX"))
     = (Threw (ServiceUnavailable "XX" "DE"), rejectedForService)
     ∧ emitted rejectedForService = ["order.rejected.service_availability"]
     ∧ orders rejectedForService = orders (worldOf (draftedOrder "XX"))
     ∧ matches rejectedForService = ∅
     ∧ checkouts rejectedForService = []).
Proof.
  assert (matchOrderAndCheckout (deps := sampleDependencies)
            "order-1" (Session 0) (worldOf (draftedOrder "ZZ"))
          = (Threw (Collaborator NoHostAvailable), rejectedForHost)) as Hhost
    by (vm_compute; reflexivity).
  assert (execute (deps := sampleDependencies)
            {| orderId := "order-1" |} (worldOf (draftedOrder "XX"))
          = (Threw (ServiceUnavailable "XX" "DE"), rejectedForService)) as Hservice
    by (vm_compute; reflexivity).
  split; (split; [assumption |]).
  - exact (proj2 (matching_rejection_mutates_nothing (deps := sampleDependencies)
                    "order-1" (Session 0) (worldOf (draftedOrder "ZZ"))
                    (Collaborator NoHostAvailable) rejectedForHost (or_introl Hhost))
             eq_refl).
  - exact (proj1 (matching_rejection_mutates_nothing (deps := sampleDependencies)
                    "order-1" (Session 0) (worldOf (draftedOrder "XX"))
                    (ServiceUnavailable "XX" "DE") rejectedForService (or_intror Hservice))
             (ex_intro _ "XX" (ex_intro _ "DE" eq_refl))).
Defined.

Lemma execute_happy_path :
  execute (deps := sampleDependencies)
    {| orderId := "order-1" |} (worldOf (draftedOrder "US"))
  = (Returned {| checkoutId := "cs_test_0" |}, afterConfirm).
Proof. vm_compute. reflexivity. Qed.

Lemma confirm_leaves_order_witness :
  orders afterConfirm = orders (worldOf (draftedOrder "US"))
  ∧ hosts afterConfirm = hosts (worldOf (draftedOrder "US"))
  ∧ ∃ order record,
      orders afterConfirm !! "order-1" = Some order
      ∧ Match.orderId record = Order.id order
      ∧ matches (worldOf (draftedOrder "US")) !! value (Match.id record) = None
      ∧ matches afterConfirm
        = <[value (Match.id record) := record]> (matches (worldOf (draftedOrder "US"))).
Proof.
  exact (confirm_leaves_order_as_it_was (deps := sampleDependencies)
           {| orderId := "order-1" |} (worldOf (draftedOrder "US"))
           {| checkoutId := "cs_test_0" |} afterConfirm execute_happy_path).
Defined.

Lemma checkout_request_shape_witness :
  ∃ record params,
    matches (worldOf (draftedOrder "US")) !! value (Match.id record) = None
    ∧ matches afterConfirm !! value (Match.id record) = Some record
    ∧ checkouts afterConfirm = checkouts (worldOf (draftedOrder "US")) ++ [params]
    ∧ Stripe.line_items params
      = [{| Stripe.price_data :=
              {| Stripe.currency := "usd"; Stripe.unit_amount := 10000;
                 Stripe.product_data := {| Stripe.name := "Locly and Host Service Fee" |} |};
            Stripe.quantity := 1 |}]
    ∧ Stripe.client_reference_id params = Some (value (Match.id record))
    ∧ Stripe.metadata params = None.
Proof.
  exact (checkout_request_shape (deps := sampleDependencies)
           {| orderId := "order-1" |} (worldOf (draftedOrder "US"))
           {| checkoutId := "cs_test_0" |} afterConfirm execute_happy_path).
Defined.

(** The session of the happy path carries no [feeType]: echoed back in
    a completed event, it is not routed to the confirm-order handler. *)
Lemma checkout_session_without_fee_type :
  ∃ checkoutSession,
    matchOrderAndCheckout (deps := sampleDependencies)
      "order-1" (Session 0) (worldOf (draftedOrder "US"))
    = (Returned checkoutSession, afterConfirm)
    ∧ Stripe.metadata <$> checkouts afterConfirm = [None]
    ∧ StripeCheckoutWebhook.metadata checkoutSession !! "feeType" = None
    ∧ StripeCheckoutWebhook.execute (handlers := StripeCheckoutWebhook.journalling)
        {| StripeCheckoutWebhook.type := "checkout.session.completed";
           StripeCheckoutWebhook.data :=
             {| StripeCheckoutWebhook.object := checkoutSession |} |} []
      = (Threw (StripeCheckoutWebhook.UnexpectedWebhookType ∅), []).
Proof.
  eexists. split; [vm_compute; reflexivity |].
  split; [reflexivity |]. split; [reflexivity |].
  vm_compute. reflexivity.
Qed.

(** The generator of the scenarios is fresh for their world. *)
Lemma sampleDependencies_fresh :
  freshGenerator (deps := sampleDependencies) (worldOf (draftedOrder "US")).
Proof.
  split.
  - intros n m Heq. cbn in Heq.
    apply (inj (String.app "match-")) in Heq. by apply (inj pretty) in Heq.
  - intros n _ [(key & order & Hlookup & Hid) | [(host & Hin & Hid) | Hsome]].
    + cbn [orders worldOf] in Hlookup.
      apply lookup_singleton_Some in Hlookup as [_ <-]. discriminate Hid.
    + apply list_elem_of_In in Hin as [<- | []]. discriminate Hid.
    + by apply is_Some_None in Hsome.
Qed.

Lemma match_id_is_drawn_witness :
  matchOrderToHost (deps := sampleDependencies) (draftedOrder "US") (Session 0)
    (worldOf (draftedOrder "US"))
  = (Returned "match-0", afterFirstMatch)
  ∧ matchOrderToHost (deps := sampleDependencies) (draftedOrder "US") (Session 1)
      afterFirstMatch
    = (Returned "match-1", afterSecondMatch)
  ∧ matches afterSecondMatch !! "match-0" = Some firstMatch
  ∧ matches afterSecondMatch !! "match-1" = Some secondMatch
  ∧ "match-0" ≠ "match-1"
  ∧ "match-0" ≠ "order-1"
  ∧ "match-1" ≠ "order-1".
Proof.
  destruct (match_id_is_drawn (deps := sampleDependencies)
              (mapper := MatchMongoRecorderAdapter.destructuringMapper)
              (draftedOrder "US")
              {| Host.id := "host-1"; Host.country := "US"; Host.available := true |}
              (Session 0) (Session 1) (worldOf (draftedOrder "US")))
    as (m1 & w1 & m2 & w2 & Hfirst & Hsecond & _ & Hm1 & Hm2 & Hne & Hid1 & Hid2 & _).
  - exact sampleDependencies_fresh.
  - exists "order-1". apply lookup_singleton_eq.
  - vm_compute. reflexivity.
  - assert (m1 = "match-0" ∧ w1 = afterFirstMatch) as [-> ->].
    { vm_compute in Hfirst. by injection Hfirst as <- <-. }
    assert (m2 = "match-1" ∧ w2 = afterSecondMatch) as [-> ->].
    { vm_compute in Hsecond. by injection Hsecond as <- <-. }
    repeat split; assumption.
Defined.

End ConfirmOrderServiceFacts.

(** * common/utils *)

Module UtilsFacts.
Import Utils.

Lemma string_app_assoc (a b c : string) : (a +:+ b) +:+ c = a +:+ (b +:+ c).
Proof.
  induction a as [|x a IH]; [done |].
  change (String x ((a +:+ b) +:+ c) = String x (a +:+ b +:+ c)). by f_equal.
Qed.

Lemma string_app_nil_r (a : string) : a +:+ "" = a.
Proof.
  induction a as [|x a IH]; [done |].
  change (String x (a +:+ "") = String x a). by f_equal.
Qed.

(** Induction on a value through the entries that [flattenObject]
    visits. *)
Lemma Value_entries_ind (P : Value → Prop) :
  (∀ v, Forall (λ entry, P entry.2) (entries v) → P v) → ∀ v, P v.
Proof.
  intros step. fix IH 1. intros v. apply step.
  destruct v as [| | | | | | | | elements | fields]; simpl; try constructor.
  - generalize (pretty : nat → string).
    induction elements as [|value rest IHrest]; intros name; simpl.
    + constructor.
    + constructor; [apply IH | apply (IHrest (name ∘ S))].
  - induction fields as [|[key value] rest IHrest]; constructor; [apply IH | apply IHrest].
Qed.

Section flattenObjectFacts.
Context (keyFilter : option (string → bool)) (valueFilter : option (Value → bool))
  (separator : string).

Local Abbreviation flatten := (flattenObject keyFilter valueFilter separator).

(** [flattenObject] is the left fold of its reducer over the entries. *)
Lemma flattenObject_fold object path :
  flatten object path = foldl (step keyFilter valueFilter separator path) ∅ (entries object).
Proof.
  destruct object as [| | | | | | | | elements | fields]; try reflexivity.
  - simpl. generalize (∅ : gmap string Value).
    change (imap (λ index value, (pretty index, value)) elements)
      with (imap (λ index value, (pretty (0 + index), value)) elements).
    generalize 0.
    induction elements as [|value rest IH]; intros index acc; [done |].
    simpl. rewrite IH. rewrite Nat.add_0_r. f_equal.
    apply imap_ext. intros j x _. simpl. by rewrite Nat.add_succ_r.
  - simpl. generalize (∅ : gmap string Value).
    induction fields as [|[key value] rest IH]; intros acc; [done |].
    simpl. by rewrite IH.
Qed.

Lemma step_kept path acc entry :
  (∀ p, map_Forall (λ _, kept valueFilter) (flatten entry.2 p)) →
  map_Forall (λ _, kept valueFilter) acc →
  map_Forall (λ _, kept valueFilter) (step keyFilter valueFilter separator path acc entry).
Proof.
  intros Hnested Hacc. unfold step, reducer.
  destruct (from_option _ _ keyFilter); [done |].
  destruct (from_option _ _ valueFilter) eqn:Hvalue; [done |].
  destruct (isObject entry.2) eqn:Hobject.
  - by apply map_Forall_union_2.
  - by apply map_Forall_insert_2.
Qed.

Lemma flattenObject_kept object :
  ∀ path, map_Forall (λ _, kept valueFilter) (flatten object path).
Proof.
  induction object as [object IH] using Value_entries_ind. intros path.
  rewrite flattenObject_fold.
  assert (map_Forall (λ _ : string, kept valueFilter) (∅ : gmap string Value)) as Hacc
    by apply map_Forall_empty.
  revert Hacc. generalize (∅ : gmap string Value).
  induction IH as [|entry rest Hentry _ IHrest]; intros acc Hacc; [done |].
  simpl. apply IHrest. by apply step_kept.
Qed.

(** X1. Every value of the object that [flattenObject] returns is
    flat, neither a plain object nor a non-empty array, and is a value
    that the value filter does not drop. *)
Theorem flattenObject_flat object path key value :
  flatten object path !! key = Some value →
  isObject value = false ∧ from_option (λ f, f value) false valueFilter = false.
Proof. intros Hlookup. exact (flattenObject_kept object path key value Hlookup). Qed.

Lemma foldl_step_flat fields : ∀ acc,
  NoDup fields.*1 →
  Forall (λ entry, isObject entry.2 = false) fields →
  foldl (step keyFilter valueFilter separator None) acc fields
  = list_to_map (filter (passes keyFilter valueFilter) fields) ∪ acc.
Proof.
  induction fields as [|[key value] rest IH]; intros acc Hnodup Hflat.
  { simpl. by rewrite (left_id_L ∅ (∪)). }
  rewrite fmap_cons in Hnodup. apply NoDup_cons in Hnodup as [Hfresh Hnodup].
  apply Forall_cons in Hflat as [Hleaf Hflat].
  cbn [foldl]. rewrite IH by done. clear IH.
  unfold step, reducer. cbn [fst snd] in *. rewrite Hleaf.
  rewrite filter_cons.
  destruct (decide (passes keyFilter valueFilter (key, value))) as [[Hkey Hvalue]|Hfiltered].
  - cbn [fst snd] in *. rewrite Hkey, Hvalue. cbn [joinPath].
    rewrite list_to_map_cons, <- insert_union_l. symmetry. apply insert_union_r.
    apply not_elem_of_list_to_map_1. intros Hin. apply Hfresh.
    apply list_elem_of_fmap in Hin as ([k v] & -> & Hin).
    apply list_elem_of_filter in Hin as [_ Hin].
    apply list_elem_of_fmap. by exists (k, v).
  - destruct (from_option _ _ keyFilter) eqn:Hkey; [done |].
    destruct (from_option _ _ valueFilter) eqn:Hvalue; [done |].
    by destruct Hfiltered.
Qed.

(** X2. Called without a path on an object whose values are all flat
    (primitives, dates, regular expressions, binaries, empty arrays),
    [flattenObject] returns the object's own entries under their own
    keys, less the ones a filter drops. *)
Theorem flattenObject_of_flat fields :
  NoDup fields.*1 →
  Forall (λ entry, isObject entry.2 = false) fields →
  flatten (ObjectValue fields) None
  = list_to_map (filter (passes keyFilter valueFilter) fields).
Proof.
  intros Hnodup Hflat. rewrite flattenObject_fold. simpl.
  rewrite foldl_step_flat by done. by rewrite (right_id_L ∅ (∪)).
Qed.

Lemma joinPath_prefixed path key :
  path ≠ "" →
  prefixed path (joinPath separator (Some path) key)
  ∧ joinPath separator (Some path) key ≠ "".
Proof.
  intros Hpath. unfold joinPath. rewrite decide_False by done.
  destruct (decide (key = "")) as [->|Hkey].
  - split; [| done]. exists "". by rewrite string_app_nil_r.
  - split; [by eexists |]. destruct path; [done | discriminate].
Qed.

Lemma prefixed_trans a b c : prefixed a b → prefixed b c → prefixed a c.
Proof. intros [r1 ->] [r2 ->]. exists (r1 +:+ r2). apply string_app_assoc. Qed.

Lemma flattenObject_prefixed object : ∀ path,
  path ≠ "" → map_Forall (λ key _, prefixed path key) (flatten object (Some path)).
Proof.
  induction object as [object IH] using Value_entries_ind. intros path Hpath.
  rewrite flattenObject_fold.
  assert (map_Forall (λ key (_ : Value), prefixed path key) (∅ : gmap string Value)) as Hacc
    by apply map_Forall_empty.
  revert Hacc. generalize (∅ : gmap string Value).
  induction IH as [|entry rest Hentry _ IHrest]; intros acc Hacc; [done |].
  cbn [foldl]. apply IHrest. unfold step, reducer.
  destruct (from_option _ _ keyFilter); [done |].
  destruct (from_option _ _ valueFilter); [done |].
  destruct (joinPath_prefixed path entry.1 Hpath) as [Hprefix Hnonempty].
  destruct (isObject entry.2).
  - apply map_Forall_union_2; [| done].
    intros key value Hlookup.
    eapply prefixed_trans; [exact Hprefix |].
    exact (Hentry _ Hnonempty key value Hlookup).
  - by apply map_Forall_insert_2.
Qed.

(** X3. Called with a non-empty path, [flattenObject] returns only
    keys that start with that path. *)
Theorem flattenObject_under_path object path key value :
  path ≠ "" →
  flatten object (Some path) !! key = Some value →
  ∃ rest, key = path +:+ rest.
Proof.
  intros Hpath Hlookup. exact (flattenObject_prefixed object path Hpath key value Hlookup).
Qed.

End flattenObjectFacts.

(** X4. Without a key filter, flattening a flattened object again, its
    entries taken in any order, gives the same object. *)
Theorem flattenObject_idempotent valueFilter separator object path fields :
  fields ≡ₚ map_to_list (flattenObject None valueFilter separator object path) →
  flattenObject None valueFilter separator (ObjectValue fields) None
  = flattenObject None valueFilter separator object path.
Proof.
  intros Hfields.
  pose proof (flattenObject_kept None valueFilter separator object path) as Hkept.
  assert (NoDup fields.*1) as Hnodup.
  { rewrite Hfields. apply NoDup_fst_map_to_list. }
  assert (Forall (λ entry, kept valueFilter entry.2) fields) as Hleaves.
  { rewrite Hfields. apply Forall_forall. intros [key value] Hin.
    apply elem_of_map_to_list in Hin. exact (Hkept key value Hin). }
  rewrite flattenObject_of_flat; [| done |].
  - replace (filter (passes None valueFilter) fields) with fields.
    + rewrite <- (list_to_map_to_list (flattenObject None valueFilter separator object path)).
      by apply list_to_map_proper.
    + clear Hfields Hnodup. induction Hleaves as [|entry rest [_ Hpass] _ IH]; [done |].
      rewrite filter_cons, decide_True by done. by rewrite <- IH.
  - eapply Forall_impl; [exact Hleaves |]. by intros entry [? _].
Qed.

Example flattenObject_sample :
  flattenObject None (Some nullish) "." sampleObject None
  = {[ "a.b" := NumberValue 1; "a.d.0" := StringValue "x"; "a.d.1" := ArrayValue [];
       "f" := DateValue 0 ]}.
Proof. vm_compute. reflexivity. Qed.

Lemma flattenObject_flat_witness :
  isObject (ArrayValue []) = false ∧ nullish (ArrayValue []) = false.
Proof.
  apply (flattenObject_flat None (Some nullish) "." sampleObject None "a.d.1" (ArrayValue [])).
  vm_compute. reflexivity.
Defined.

Lemma flattenObject_of_flat_witness :
  flattenObject None (Some nullish) "." (ObjectValue sampleFlat) None
  = {[ "x" := NumberValue 1; "z" := ArrayValue []; "" := BinaryValue "00" ]}.
Proof.
  rewrite (flattenObject_of_flat None (Some nullish) "." sampleFlat).
  - vm_compute. reflexivity.
  - apply (bool_decide_unpack _). vm_compute. exact I.
  - apply (bool_decide_unpack _). vm_compute. exact I.
Defined.

Lemma flattenObject_idempotent_witness :
  flattenObject None (Some nullish) "."
    (ObjectValue (map_to_list (flattenObject None (Some nullish) "." sampleObject None))) None
  = flattenObject None (Some nullish) "." sampleObject None.
Proof. by apply flattenObject_idempotent. Defined.

Lemma flattenObject_under_path_witness : ∃ rest, "set.a.b" = "set" +:+ rest.
Proof.
  apply (flattenObject_under_path None (Some nullish) "." sampleObject "set" "set.a.b"
           (NumberValue 1)); [done |].
  vm_compute. reflexivity.
Defined.

Lemma unitsPerOne_large : (2 ≤ unitsPerOne)%Z.
Proof. unfold unitsPerOne. change 2%Z with (2 ^ 1)%Z at 1. apply Z.pow_le_mono_r; lia. Qed.

Lemma floorHalf_ofInteger z : floorHalf (ofInteger z) = FloorInteger (z / 2)%Z.
Proof.
  pose proof unitsPerOne_large as Hlarge.
  unfold floorHalf, ofInteger.
  rewrite decide_False by (destruct (Z.le_gt_cases 0 z); nia).
  f_equal. apply Z.div_mul_cancel_r; lia.
Qed.

Lemma sliceFromStart_prefix {A} finish (array : list A) :
  sliceFromStart finish array `prefix_of` array.
Proof.
  assert (∀ n, take n array `prefix_of` array) as Htake.
  { intros n. exists (drop n array). symmetry. apply take_drop. }
  destruct finish as [|[]|z]; simpl; [by eexists | by eexists | done |].
  case_decide; apply Htake.
Qed.

(** X5. Whatever [inputEnum.length] is, [enumToArray] returns a prefix
    of [Object.values(inputEnum)].  It returns the empty array for an
    object that has no [length], such as an enum object; the first
    [floor(n / 2)] values when [length] is an integer [n >= 0], which for
    an array is its first half; and, when [length] is a negative integer
    [n], all the values but the last [-floor(n / 2)]. *)
Theorem enumToArray_half {A} (values : list A) :
  (∀ length,
     enumToArray {| lengthProperty := length; objectValues := values |} `prefix_of` values)
  ∧ enumToArray {| lengthProperty := NaN; objectValues := values |} = []
  ∧ (∀ n, (0 ≤ n)%Z →
       enumToArray {| lengthProperty := ofInteger n; objectValues := values |}
       = take (Z.to_nat (n / 2)) values)
  ∧ length (enumToArray {| lengthProperty := ofInteger (Z.of_nat (length values));
                           objectValues := values |})
    = (length values / 2)%nat
  ∧ (∀ n, (n < 0)%Z →
       enumToArray {| lengthProperty := ofInteger n; objectValues := values |}
       = take (length values - Z.to_nat (- (n / 2))) values).
Proof.
  unfold enumToArray. cbn [lengthProperty objectValues].
  split; [intros number; apply sliceFromStart_prefix |].
  split; [done |].
  split.
  { intros n Hn. rewrite floorHalf_ofInteger. unfold sliceFromStart.
    rewrite decide_False; [done |]. apply Z.nlt_ge, Z.div_pos; lia. }
  split.
  { rewrite floorHalf_ofInteger. unfold sliceFromStart.
    rewrite decide_False by (apply Z.nlt_ge, Z.div_pos; lia).
    rewrite length_take, <- (Nat2Z.inj_div _ 2), Nat2Z.id.
    apply Nat.min_l, Nat.Div0.div_le_upper_bound. lia. }
  intros n Hn. rewrite floorHalf_ofInteger. unfold sliceFromStart.
  assert (n / 2 < 0)%Z as Hhalf by (apply Z.div_lt_upper_bound; lia).
  rewrite decide_True by done. f_equal. lia.
Qed.

Example enumToArray_enum_object :
  enumToArray {| lengthProperty := NaN; objectValues := ["Drafted"; "Confirmed"; "0"; "1"] |}
  = []
  ∧ enumToArray {| lengthProperty := ofInteger 4;
                   objectValues := ["Drafted"; "Confirmed"; "0"; "1"] |}
    = ["Drafted"; "Confirmed"]
  ∧ enumToArray {| lengthProperty := ofInteger (-2);
                   objectValues := ["Drafted"; "Confirmed"; "0"; "1"] |}
    = ["Drafted"; "Confirmed"; "0"]
  ∧ enumToArray {| lengthProperty := Finite (5 * 2 ^ 1073)%Z;
                   objectValues := ["Drafted"; "Confirmed"; "0"; "1"] |}
    = ["Drafted"]
  ∧ enumToArray {| lengthProperty := Finite (-1)%Z;
                   objectValues := ["Drafted"; "Confirmed"; "0"; "1"] |}
    = [].
Proof. repeat split; vm_compute; reflexivity. Qed.

(** X6. Whatever the driver makes of the callback, [withTransaction]
    settles the way the driver did, with the same error when it threw,
    writes the line "Transaction aborted." exactly when it threw, and
    has ended the session, once, on both paths. *)
Theorem withTransaction_ends_session {D T} `{Driver D} (fn : Js D T)
    (transaction : ClientSession) (w : Process D) :
  let settled := sessionWithTransaction T fn (database w) in
  withTransaction fn transaction w
  = (settled.1,
     {| database := settled.2;
        console := console w ++ match settled.1 with
                                | Threw _ => ["Transaction aborted."]
                                | Returned _ => []
                                end;
        ended := ended w ++ [transaction] |}).
Proof.
  unfold withTransaction, finally, catch, onDatabase, consoleLog, endSession, modify, throw,
    mbind, Js_bind, mret, Js_ret.
  destruct (sessionWithTransaction T fn (database w)) as [[result|error] d]; simpl.
  - by rewrite (right_id_L [] (++)).
  - done.
Qed.

Example withTransaction_aborted :
  withTransaction (H := committing nat) (λ d, (Threw (MongoError "write conflict"), S d))
    (Session 7) {| database := 3; console := []; ended := [] |}
  = (Threw (MongoError "write conflict") : Outcome unit,
     {| database := 3; console := ["Transaction aborted."]; ended := [Session 7] |}).
Proof. reflexivity. Qed.

End UtilsFacts.

(** * MatchMongoRecorderAdapter, continued *)

Module MatchLedgerFacts.
Import MatchMongoRecorderAdapter MatchMongoRecorderAdapterFacts.

Section LedgerFacts.
Context {mapper : MatchMongoMapper}.

(** X7. With mappers that key the document by the order id and read
    back what they wrote, a match recorded for an order that has none
    is returned by the next [retrieveAndDeleteMatch] for the id that
    [recordMatch] gave, and the collection is then as it was before the
    recording. *)
Theorem recordMatch_retrieve_round_trip order host s1 s2 (c : Collection) :
  (∀ m, _id (matchToMongoDocument m) = uuidToMuuid (orderId m)) →
  (∀ m, mongoDocumentToMatch (Some (matchToMongoDocument m)) = Returned m) →
  c !! order = None →
  ∃ matchId c1,
    recordMatch order host s1 c = (Returned matchId, c1)
    ∧ retrieveAndDeleteMatch matchId s2 c1
      = (Returned {| orderId := order; hostId := host |}, c).
Proof.
  intros Hkey Hread Hfree.
  exists order, (<[order := matchToMongoDocument {| orderId := order; hostId := host |}]> c).
  split.
  - rewrite recordMatch_eq. cbn zeta. rewrite Hkey. unfold uuidToMuuid. simpl.
    by rewrite Hfree.
  - rewrite retrieveAndDeleteMatch_eq, lookup_insert_eq, Hread.
    f_equal. rewrite delete_insert_eq. by apply delete_id.
Qed.

(** X8. With a mapper that keys the document by the order id, an
    order that already has a recorded match cannot get a second one:
    [recordMatch] rejects with the driver's duplicate-key error, for
    any host, and the recorded match stays as it is. *)
Theorem recordMatch_one_per_order order host s (c : Collection) doc :
  (∀ m, _id (matchToMongoDocument m) = uuidToMuuid (orderId m)) →
  c !! order = Some doc →
  recordMatch order host s c = (Threw (MongoError "E11000 duplicate key error"), c).
Proof.
  intros Hkey Hdoc. rewrite recordMatch_eq. cbn zeta. rewrite Hkey.
  unfold uuidToMuuid. simpl. by rewrite Hdoc.
Qed.

(** X9. [findMatch] never changes the collection; it rejects with
    [ENTITY_NOT_FOUND_ERROR] also when the order has a match but with
    another host, and hands the stored document to the mapper only when
    both ids agree. *)
Theorem findMatch_reads_only order host s (c : Collection) :
  (findMatch order host s c).2 = c
  ∧ (∀ doc, c !! order = Some doc → doc_hostId doc ≠ host →
       ∃ message data,
         findMatch order host s c
         = (Threw (Exception ENTITY_NOT_FOUND_ERROR message data), c))
  ∧ (∀ doc, c !! order = Some doc → doc_hostId doc = host →
       findMatch order host s c = (mongoDocumentToMatch (Some doc), c)).
Proof.
  unfold findMatch, mbind, Js_bind, findOne, throw, settle, uuidToMuuid.
  split; [| split].
  - destruct (c !! order) as [doc|]; [| done]. by case_decide.
  - intros doc -> Hhost. rewrite decide_False by done. by eexists _, _.
  - intros doc -> Hhost. by rewrite decide_True.
Qed.

End LedgerFacts.

Lemma recordMatch_retrieve_round_trip_witness :
  ∃ matchId c1,
    recordMatch (mapper := destructuringMapper) "order-1" "host-1" None ∅ = (Returned matchId, c1)
    ∧ retrieveAndDeleteMatch (mapper := destructuringMapper) matchId None c1
      = (Returned {| orderId := "order-1"; hostId := "host-1" |}, ∅).
Proof.
  apply (recordMatch_retrieve_round_trip (mapper := destructuringMapper)
           "order-1" "host-1" None None ∅); [done | by intros [] | apply lookup_empty].
Defined.

Lemma recordMatch_one_per_order_witness :
  recordMatch (mapper := destructuringMapper) "order-1" "host-2" None sampleMatches
  = (Threw (MongoError "E11000 duplicate key error"), sampleMatches).
Proof.
  apply (recordMatch_one_per_order (mapper := destructuringMapper) "order-1" "host-2" None
           sampleMatches {| _id := "order-1"; doc_hostId := "host-1" |}); [done |].
  apply lookup_singleton_eq.
Defined.

Lemma findMatch_reads_only_witness :
  (∃ message data,
     findMatch (mapper := destructuringMapper) "order-1" "host-2" None sampleMatches
     = (Threw (Exception ENTITY_NOT_FOUND_ERROR message data), sampleMatches))
  ∧ findMatch (mapper := destructuringMapper) "order-1" "host-1" None sampleMatches
    = (Returned {| orderId := "order-1"; hostId := "host-1" |}, sampleMatches).
Proof.
  split.
  - apply (proj1 (proj2 (findMatch_reads_only (mapper := destructuringMapper)
                           "order-1" "host-2" None sampleMatches))
             {| _id := "order-1"; doc_hostId := "host-1" |});
      [apply lookup_singleton_eq | done].
  - apply (proj2 (proj2 (findMatch_reads_only (mapper := destructuringMapper)
                           "order-1" "host-1" None sampleMatches))
             {| _id := "order-1"; doc_hostId := "host-1" |});
      [apply lookup_singleton_eq | done].
Defined.

End MatchLedgerFacts.

(** * CustomerMongoRepositoryAdapter, continued *)

Module CustomerLinkFacts.
Import CustomerMongoRepositoryAdapter CustomerMongoRepositoryAdapterFacts.

(** X10. After [addOrderToCustomer], [findCustomer] for the order's
    customer returns the stored document with the order id appended
    last; for a customer id that matches nothing the order id is not
    kept anywhere and [findCustomer] still rejects with
    [ENTITY_NOT_FOUND_ERROR]. *)
Theorem addOrderToCustomer_then_find order t1 t2 (c : Collection) :
  let c1 := (addOrderToCustomer order t1 c).2 in
  (∀ doc, c !! customerId order = Some doc →
     findCustomer (customerId order) t2 c1
     = (Returned {| _id := _id doc; orderIds := orderIds doc ++ [id order];
                    addresses := addresses doc |}, c1))
  ∧ (c !! customerId order = None →
     c1 = c
     ∧ ∃ message data,
         findCustomer (customerId order) t2 c1
         = (Threw (Exception ENTITY_NOT_FOUND_ERROR message data), c1)).
Proof.
  rewrite addOrderToCustomer_eq. cbn zeta. cbn [snd].
  unfold findCustomer, findOne, gets, mbind, Js_bind, mret, Js_ret, throw, uuidToMuuid.
  split.
  - intros doc Hdoc. by rewrite lookup_alter_eq, Hdoc.
  - intros Hnone.
    assert (alter (push (id order)) (customerId order) c = c) as ->.
    { apply map_eq. intros k. rewrite lookup_alter.
      case_decide as Hk; [| done]. subst k. by rewrite Hnone. }
    split; [done |]. rewrite Hnone. by eexists _, _.
Qed.

(** X11. [addOrderToCustomer] creates and removes no customer
    document and changes no other customer's document. *)
Theorem addOrderToCustomer_frame order transaction (c : Collection) :
  let c1 := (addOrderToCustomer order transaction c).2 in
  dom c1 = dom c
  ∧ ∀ other, other ≠ customerId order → c1 !! other = c !! other.
Proof.
  rewrite addOrderToCustomer_eq. cbn zeta. cbn [snd].
  split; [apply dom_alter_L |].
  intros other Hother. by apply lookup_alter_ne.
Qed.

Lemma addOrderToCustomer_then_find_witness :
  findCustomer "customer-1" None
    (addOrderToCustomer {| id := "order-1"; customerId := "customer-1" |} None sampleCustomers).2
  = (Returned {| _id := "customer-1"; orderIds := ["order-1"]; addresses := [] |},
     (addOrderToCustomer {| id := "order-1"; customerId := "customer-1" |} None
        sampleCustomers).2).
Proof.
  apply (proj1 (addOrderToCustomer_then_find
                  {| id := "order-1"; customerId := "customer-1" |} None None sampleCustomers)
           {| _id := "customer-1"; orderIds := []; addresses := [] |}).
  apply lookup_singleton_eq.
Defined.

End CustomerLinkFacts.

(** * CreateCustomer *)

Module CreateCustomerFacts.
Import CreateCustomer.

Section CreateCustomerFacts.
Context {mapper : CustomerMongoMapper} (uuid : nat → UUID).

Lemma createCustomer_run payload session w :
  createCustomer uuid payload session w =
    let customer := created uuid payload (drawn w) in
    let document := customerToMongoDocument customer in
    match customers w !! _id document with
    | Some _ =>
        (Threw (CustomException "Error adding a customer"
                  (JsObject [("customer", customerToJs customer)]) None),
         {| customers := customers w; drawn := S (drawn w) |})
    | None =>
        (Returned customer,
         {| customers := <[_id document := document]> (customers w); drawn := S (drawn w) |})
    end.
Proof.
  unfold createCustomer, newUuid, addCustomer, insertOne, created, catch, throw, gets, modify,
    mbind, Js_bind, mret, Js_ret.
  cbn. by destruct (customers w !! _).
Qed.


(** X13. When the drawn id is already the [_id] of a stored document,
    [createCustomer] rejects with the exception "Error adding a
    customer" that carries the customer, and the collection is as it
    was. *)
Theorem createCustomer_collision payload session w document :
  customers w !! _id (customerToMongoDocument (created uuid payload (drawn w)))
  = Some document →
  ∃ w1,
    createCustomer uuid payload session w
    = (Threw (CustomException "Error adding a customer"
                (JsObject [("customer", customerToJs (created uuid payload (drawn w)))])
                None), w1)
    ∧ customers w1 = customers w.
Proof.
  intros Htaken. eexists. rewrite createCustomer_run. cbn zeta. rewrite Htaken.
  split; reflexivity.
Qed.

End CreateCustomerFacts.


Lemma createCustomer_collision_witness :
  ∃ w1,
    createCustomer (mapper := copyingMapper) sampleIds {| email := "ada@example.org" |}
      (Session 0)
      {| customers := {[ "customer-0" := copyingMapper (created sampleIds {| email := "x" |} 0) ]};
         drawn := 0 |}
    = (Threw (CustomException "Error adding a customer"
                (JsObject [("customer",
                            customerToJs (created sampleIds {| email := "ada@example.org" |} 0))])
                None), w1)
    ∧ customers w1
      = {[ "customer-0" := copyingMapper (created sampleIds {| email := "x" |} 0) ]}.
Proof.
  refine (createCustomer_collision (mapper := copyingMapper) sampleIds
            {| email := "ada@example.org" |} (Session 0)
            {| customers := {[ "customer-0" := copyingMapper (created sampleIds {| email := "x" |} 0) ]};
               drawn := 0 |}
            (copyingMapper (created sampleIds {| email := "x" |} 0)) _).
  vm_compute. reflexivity.
Defined.

End CreateCustomerFacts.

(** * ConfirmOrderService, continued *)

Module ConfirmOrderSagaFacts.
Import ConfirmOrderService ConfirmOrderReplay ConfirmOrderServiceFacts.

Section SagaFacts.
Context {deps : Dependencies}.

Local Ltac settle_trace :=
  repeat split;
  try (cbn; lia);
  try (by auto);
  try (by intros [? ?]);
  try (by intros [|]);
  try (by eexists).

(** X15. A run of [execute] emits at most one event, one of the three
    the saga knows; it emits "order.awaiting_payment" exactly when it
    returns; it asks the gateway for at most one checkout session, and
    for none when it emitted a rejection. *)
Theorem execute_events request w :
  let settled := execute request w in
  ∃ events requests,
    emitted settled.2 = emitted w ++ events
    ∧ checkouts settled.2 = checkouts w ++ requests
    ∧ (events = [] ∨ events = ["order.rejected.service_availability"]
       ∨ events = ["order.rejected.host_availability"]
       ∨ events = ["order.awaiting_payment"])
    ∧ ((∃ result, settled.1 = Returned result) ↔ events = ["order.awaiting_payment"])
    ∧ (length requests ≤ 1)%nat
    ∧ (events = ["order.rejected.service_availability"]
       ∨ events = ["order.rejected.host_availability"] → requests = []).
Proof.
  cbn zeta. rewrite execute_run, matchOrderAndCheckout_run.
  destruct (orders w !! orderId request) as [order|].
  2: { exists [], []. cbn. rewrite !(right_id_L [] (++)). settle_trace. }
  destruct (covered order).
  2: { exists ["order.rejected.service_availability"], []. cbn.
       rewrite ?(right_id_L [] (++)). settle_trace. }
  rewrite matchOrderToHost_run.
  destruct (availableIn _ w) as [host|].
  2: { exists ["order.rejected.host_availability"], []. cbn.
       rewrite ?(right_id_L [] (++)). settle_trace. }
  destruct (matches w !! uuid (drawn w)).
  { exists ["order.rejected.host_availability"], []. cbn.
    rewrite ?(right_id_L [] (++)). settle_trace. }
  destruct (sessionsCreate _ _).
  - exists [], [checkoutParams (uuid (drawn w))]. cbn.
    rewrite ?(right_id_L [] (++)). settle_trace.
  - exists ["order.awaiting_payment"], [checkoutParams (uuid (drawn w))]. cbn.
    settle_trace.
Qed.

(** X16. The confirmation reads of the order only its id, its origin
    country and its destination: run on an order that differs in any
    other field, its status included, it settles the same way and does
    the same to the ledger, the events and the gateway. *)
Theorem matchOrderAndCheckout_ignores_status orderId session w order order' :
  orders w !! orderId = Some order →
  Order.id order' = Order.id order →
  Order.originCountry order' = Order.originCountry order →
  Order.destination order' = Order.destination order →
  let settled := matchOrderAndCheckout orderId session w in
  matchOrderAndCheckout orderId session (withOrders <[orderId := order']> w)
  = (settled.1, withOrders <[orderId := order']> settled.2).
Proof.
  intros Horder Hid Horigin Hdestination. cbn zeta.
  rewrite !matchOrderAndCheckout_run. cbn [orders withOrders].
  rewrite lookup_insert_eq, Horder.
  unfold covered. rewrite Horigin, Hdestination.
  destruct (_ && _); [| done].
  rewrite !matchOrderToHost_run. unfold availableIn, matchOf.
  cbn [hosts matches drawn withOrders]. rewrite Horigin, Hid.
  destruct (List.find _ _) as [host|]; [| done].
  destruct (matches w !! uuid (drawn w)); [done |].
  cbn [checkouts withMatches withDrawn withOrders].
  by destruct (sessionsCreate _ _).
Qed.

(** X17. When the gateway rejects the request for a checkout session,
    after the host has been matched and the match recorded,
    [matchOrderAndCheckout] rejects with the gateway's error and emits
    no event at all, neither a rejection nor "order.awaiting_payment";
    it runs no compensation: the match it recorded is still in the
    ledger it leaves to the transaction, and the request and the drawn
    id are spent.  [execute] rejects with the same error, has emitted
    nothing and has made that one request. *)
Theorem execute_gateway_failure request session w order host message :
  orders w !! orderId request = Some order →
  covered order = true →
  availableIn (Order.originCountry order) w = Some host →
  matches w !! uuid (drawn w) = None →
  sessionsCreate (checkouts w) (checkoutParams (uuid (drawn w))) = inl message →
  matchOrderAndCheckout (orderId request) session w
  = (Threw (StripeError message),
     withCheckout (checkoutParams (uuid (drawn w)))
       (withMatches <[uuid (drawn w) := matchOf order host w]> (withDrawn w)))
  ∧ (execute request w).1 = Threw (StripeError message)
  ∧ emitted (execute request w).2 = emitted w
  ∧ checkouts (execute request w).2 = checkouts w ++ [checkoutParams (uuid (drawn w))].
Proof.
  intros Horder Hcovered Hhost Hfree Hgateway.
  assert (∀ s, matchOrderAndCheckout (orderId request) s w
               = (Threw (StripeError message),
                  withCheckout (checkoutParams (uuid (drawn w)))
                    (withMatches <[uuid (drawn w) := matchOf order host w]> (withDrawn w))))
    as Hcallback.
  { intros s.
    rewrite matchOrderAndCheckout_run, Horder, Hcovered, matchOrderToHost_run, Hhost, Hfree.
    cbn [checkouts withMatches withDrawn]. by rewrite Hgateway. }
  split; [apply Hcallback |].
  rewrite execute_run, Hcallback. done.
Qed.

End SagaFacts.

Lemma matchOrderAndCheckout_ignores_status_witness :
  ∃ checkoutSession,
    matchOrderAndCheckout (deps := sampleDependencies) "order-1" (Session 0)
      (withOrders <["order-1" := confirmedAlready]> (worldOf (draftedOrder "US")))
    = (Returned checkoutSession, withOrders <["order-1" := confirmedAlready]> afterConfirm).
Proof.
  eexists.
  refine (eq_trans
            (matchOrderAndCheckout_ignores_status (deps := sampleDependencies)
               "order-1" (Session 0) (worldOf (draftedOrder "US"))
               (draftedOrder "US") confirmedAlready _ _ _ _) _).
  - apply lookup_singleton_eq.
  - reflexivity.
  - reflexivity.
  - reflexivity.
  - vm_compute. reflexivity.
Defined.

Lemma execute_gateway_failure_witness :
  matchOrderAndCheckout (deps := decliningDependencies) "order-1" (Session 0)
    (worldOf (draftedOrder "US"))
  = (Threw (StripeError "card_declined"), withCheckout (checkoutParams "match-0") afterFirstMatch)
  ∧ (execute (deps := decliningDependencies) {| orderId := "order-1" |}
       (worldOf (draftedOrder "US"))).1
    = Threw (StripeError "card_declined")
  ∧ emitted (execute (deps := decliningDependencies) {| orderId := "order-1" |}
               (worldOf (draftedOrder "US"))).2
    = []
  ∧ checkouts (execute (deps := decliningDependencies) {| orderId := "order-1" |}
                 (worldOf (draftedOrder "US"))).2
    = [checkoutParams "match-0"].
Proof.
  apply (execute_gateway_failure (deps := decliningDependencies) {| orderId := "order-1" |}
           (Session 0) (worldOf (draftedOrder "US")) (draftedOrder "US")
           {| Host.id := "host-1"; Host.country := "US"; Host.available := true |}
           "card_declined").
  - apply lookup_singleton_eq.
  - vm_compute. reflexivity.
  - vm_compute. reflexivity.
  - apply lookup_empty.
  - reflexivity.
Defined.

End ConfirmOrderSagaFacts.

(** * SubmitShipmentInfo, continued *)

Module SubmitShipmentInfoFrameFacts.
Import SubmitShipmentInfo SubmitShipmentInfoFacts.

Lemma finalizeOrder_frame request session w :
  (∀ other, other ≠ orderId request →
     orders (finalizeOrder request session w).2 !! other = orders w !! other)
  ∧ (∀ error, (finalizeOrder request session w).1 = Threw error →
       orders (finalizeOrder request session w).2 = orders w).
Proof.
  destruct (lookupOrder (loadFilter request) w) as [order|] eqn:Hl.
  - destruct (decide (filter incomplete (Order.items order) = [])) as [Hnil|Hne].
    + pose proof (lookupOrder_Some _ _ _ Hl) as Hw.
      rewrite (finalizeOrder_passed _ session _ _ Hw Hl Hnil).
      split; [| discriminate].
      intros other Hother. cbn. by rewrite lookup_insert_ne.
    + by rewrite (finalizeOrder_blocked _ session _ _ Hl Hne).
  - assert (finalizeOrder request session w
            = (Threw (Collaborator OrderNotFound), loaded request w)) as ->; [| done].
    unfold finalizeOrder, mbind. unfold Js_bind at 1.
    by rewrite (getUnfinalizedItems_miss _ _ Hl).
Qed.

(** X18. [finalizeOrder], and [execute] around it, leave every order
    other than the request's as it was whatever the outcome; and
    [finalizeOrder] has written nothing when it throws, the check of the
    items coming before the only update, so that the transaction of
    [execute] has no write to undo. *)
Theorem finalizeOrder_touches_one_order request session transaction w :
  let inner := finalizeOrder request session w in
  let outer := execute request transaction w in
  (∀ other, other ≠ orderId request →
     orders inner.2 !! other = orders w !! other
     ∧ orders outer.2 !! other = orders w !! other)
  ∧ (∀ error, inner.1 = Threw error → orders inner.2 = orders w)
  ∧ (∀ error, outer.1 = Threw error → orders outer.2 = orders w).
Proof.
  cbn zeta.
  destruct (execute_finalizeOrder request transaction w) as [Houtcome Horders].
  rewrite Houtcome, Horders.
  destruct (finalizeOrder_frame request session w) as [Hothers Hthrew].
  destruct (finalizeOrder_frame request (default (Session 0) transaction) w)
    as [Hothers' Hthrew'].
  split; [| split].
  - intros other Hother. split; [by apply Hothers | by apply Hothers'].
  - exact Hthrew.
  - exact Hthrew'.
Qed.

(** X19. A finalized order is not finalized twice: after an [execute]
    that returned, every further [execute] for the same order, whatever
    else the request says, misses the filtered load, is rejected with
    OrderNotFound and changes no order. *)
Theorem execute_not_repeatable request session w order :
  orders w !! orderId request = Some order →
  Order.status order = Confirmed →
  Order.hostId order = Some (hostId request) →
  (∀ item, item ∈ Order.items order → complete item) →
  ∃ w1,
    execute request session w = (Returned tt, w1)
    ∧ ∀ request' session',
        orderId request' = orderId request →
        ∃ w2,
          execute request' session' w1 = (Threw (Collaborator OrderNotFound), w2)
          ∧ orders w2 = orders w1.
Proof.
  intros Hw Hs Hh Hall.
  pose proof (lookupOrder_load _ _ _ Hw Hs Hh) as Hl.
  apply offending_nil in Hall.
  set (s := default (Session 0) session).
  pose proof (finalizeOrder_passed _ s _ _ Hw Hl Hall) as Hrun.
  exists (updated request s order w). split.
  { unfold execute, withTransaction. fold s. by rewrite Hrun. }
  intros request' session' Hsame.
  assert (lookupOrder (loadFilter request') (updated request s order w) = None) as Hmiss.
  { unfold lookupOrder, loadFilter, updated, selects. cbn.
    rewrite Hsame, lookup_insert_eq. cbn. done. }
  eexists. split.
  - unfold execute, withTransaction, finalizeOrder, mbind. unfold Js_bind at 1.
    rewrite (getUnfinalizedItems_miss _ _ Hmiss). reflexivity.
  - reflexivity.
Qed.

Lemma execute_not_repeatable_witness :
  ∃ w1,
    execute sampleRequest None (storeOf (confirmedOrder [laptop])) = (Returned tt, w1)
    ∧ ∀ request' session',
        orderId request' = orderId sampleRequest →
        ∃ w2,
          execute request' session' w1 = (Threw (Collaborator OrderNotFound), w2)
          ∧ orders w2 = orders w1.
Proof.
  apply (execute_not_repeatable sampleRequest None (storeOf (confirmedOrder [laptop]))
           (confirmedOrder [laptop])).
  - apply lookup_singleton_eq.
  - reflexivity.
  - reflexivity.
  - intros item Hin. apply list_elem_of_In in Hin as [<-|[]].
    split; [by eexists | discriminate].
Defined.

End SubmitShipmentInfoFrameFacts.
